(** * CDR test-suite generator: asynchronous job lifecycle

    A shallow embedding of the server side of the repository:
    - [server/mock-testcase-generator.ts]  (CSV parsing, test-case generation,
      statistics, job orchestration),
    - [server/gcs-service.ts]              (the job store, CSV export),
    - [server/routes.ts]                   (submit, status, results and download
      routes, the method names of the pytest route),
    followed by the properties of the specification that concern them.

    JavaScript strings are modelled by [string] (sequences of 8-bit
    characters); all text the generator itself produces is ASCII.  The
    primitives of [Js] are exact on text of 7-bit characters.  The store is
    keyed by job id, which is exact for the ids that name their own directory
    (no path separator, not [.] or [..]), as every id drawn by [uuidv4] is.

    Asynchronous code is written in a state-and-exception monad [M] over a
    [World]: the job store, the queue of [setImmediate] and the position
    reached in the environment.  What the program does not decide (errors of
    the backing storage, aborted steps, the clock, job ids, the GitHub
    fetch) is an [Env]; the properties quantify over it. *)

From Stdlib Require Import Ascii DecimalString DecimalNat.
From stdpp Require Import gmap strings list fin_maps.

Local Open Scope stdpp_scope.

(** ** JavaScript string primitives *)

Module Js.

Definition LF : ascii := ascii_of_nat 10.
Definition DQUOTE : ascii := ascii_of_nat 34.
Definition COMMA : ascii := ","%char.
Definition nl : string := String LF EmptyString.

(** [s.length]: on text of 7-bit characters, the number of characters. *)
Definition length (s : string) : nat := String.length s.

(** Truthiness of a string: every string but the empty one. *)
Definition truthy (s : string) : bool :=
  match s with EmptyString => false | String _ _ => true end.

(** [o || d] for a possibly undefined string [o]. *)
Definition or_default (o : option string) (d : string) : string :=
  match o with
  | Some s => if truthy s then s else d
  | None => d
  end.

(** [s.includes(c)] for a one-character needle. *)
Fixpoint includes (c : ascii) (s : string) : bool :=
  match s with
  | EmptyString => false
  | String a r => if decide (a = c) then true else includes c r
  end.

(** White space removed by [trim]: the 7-bit part of it ([trim] also removes
    U+00A0, U+FEFF and the other Unicode spaces and line terminators). *)
Definition is_white (c : ascii) : bool :=
  let n := nat_of_ascii c in
  (n =? 32) || ((9 <=? n) && (n <=? 13)).

Fixpoint trimStart (s : string) : string :=
  match s with
  | EmptyString => EmptyString
  | String c r => if is_white c then trimStart r else s
  end.

Fixpoint trimEnd (s : string) : string :=
  match s with
  | EmptyString => EmptyString
  | String c r =>
      match trimEnd r with
      | EmptyString => if is_white c then EmptyString else String c EmptyString
      | r' => String c r'
      end
  end.

Definition trim (s : string) : string := trimEnd (trimStart s).

(** [s.split(sep)] for a one-character separator: never the empty list. *)
Fixpoint split (sep : ascii) (s : string) : list string :=
  match s with
  | EmptyString => [EmptyString]
  | String c r =>
      if decide (c = sep) then EmptyString :: split sep r
      else match split sep r with
           | h :: t => String c h :: t
           | [] => [String c EmptyString]
           end
  end.

(** [parts.join(sep)] *)
Fixpoint join (sep : string) (parts : list string) : string :=
  match parts with
  | [] => EmptyString
  | [p] => p
  | p :: ps => p +:+ sep +:+ join sep ps
  end.

Definition lower_char (c : ascii) : ascii :=
  let n := nat_of_ascii c in
  if (65 <=? n) && (n <=? 90) then ascii_of_nat (n + 32) else c.

(** [s.toLowerCase()] *)
Fixpoint toLowerCase (s : string) : string :=
  match s with
  | EmptyString => EmptyString
  | String c r => String (lower_char c) (toLowerCase r)
  end.

(** [String(n)] for a non-negative integer. *)
Definition String_ (n : nat) : string :=
  NilEmpty.string_of_uint (Nat.to_uint n).

Fixpoint repeat_char (c : ascii) (n : nat) : string :=
  match n with
  | 0 => EmptyString
  | S k => String c (repeat_char c k)
  end.

(** [s.padStart(width, c)] for a one-character filler. *)
Definition padStart (width : nat) (c : ascii) (s : string) : string :=
  repeat_char c (width - length s) +:+ s.

(** [s.replace(/c/g, by)] for a one-character pattern. *)
Fixpoint replaceAll (c : ascii) (by_ : string) (s : string) : string :=
  match s with
  | EmptyString => EmptyString
  | String a r =>
      if decide (a = c) then by_ +:+ replaceAll c by_ r
      else String a (replaceAll c by_ r)
  end.

End Js.

(** ** Data model ([gcs-service.ts], [mock-testcase-generator.ts]) *)

Record TestCase := mkTestCase {
  TestCaseID : string;
  TestDescription : string;
  TestSteps : string;
  ExpectedResults : string;
  TestCaseType : string;
  Subtype : string;
}.

(** A parsed CSV row is a plain object: header name to (non-empty) cell. *)
Abbreviation CSVRow := (gmap string string).

(** [row[header] = value] on an object literal: an own property is created,
    except for the key [__proto__], whose setter ignores a string. *)
Definition set_prop (header value : string) (row : CSVRow) : CSVRow :=
  if decide (header = "__proto__") then row else <[header := value]> row.

(** ** CSV parsing ([MockTestCaseGenerator.parseCSV], [parseCSVLine]) *)

Fixpoint parseCSVLine_loop (line current : string) (inQuotes : bool)
    (result : list string) : list string :=
  match line with
  | EmptyString => result ++ [Js.trim current]
  | String char rest =>
      if decide (char = Js.DQUOTE) then
        match inQuotes, rest with
        | true, String nextChar rest' =>
            if decide (nextChar = Js.DQUOTE)
            then parseCSVLine_loop rest' (current +:+ String Js.DQUOTE EmptyString)
                   inQuotes result
            else parseCSVLine_loop rest current (negb inQuotes) result
        | _, _ => parseCSVLine_loop rest current (negb inQuotes) result
        end
      else if bool_decide (char = Js.COMMA) && negb inQuotes then
        parseCSVLine_loop rest EmptyString inQuotes (result ++ [Js.trim current])
      else parseCSVLine_loop rest (current +:+ String char EmptyString) inQuotes result
  end.

Definition parseCSVLine (line : string) : list string :=
  parseCSVLine_loop line EmptyString false [].

(** The body of [headers.forEach((header, index) => ...)]. *)
Definition assign_cell (values : list string) (row : CSVRow)
    (cell : nat * string) : CSVRow :=
  let '(index, header) := cell in
  match values !! index with
  | Some v => if Js.truthy v then set_prop header v row else row
  | None => row
  end.

Definition parse_row (headers : list string) (line : string) : CSVRow :=
  fold_left (assign_cell (parseCSVLine line)) (imap pair headers) ∅.

Definition has_keys (row : CSVRow) : bool := 0 <? size row.

Definition parseCSV (csvContent : string) : list CSVRow :=
  match Js.split Js.LF (Js.trim csvContent) with
  | [] => []
  | header :: lines =>
      let headers := parseCSVLine header in
      filter (λ row, has_keys row = true) (map (parse_row headers) lines)
  end.

(** ** Test-case generation ([MockTestCaseGenerator.generateTestCasesFromCSV]) *)

(** [row.Required?.toLowerCase() === 'yes' || ... === 'true'] *)
Definition isRequired (row : CSVRow) : bool :=
  match row !! "Required" with
  | Some r =>
      bool_decide (Js.toLowerCase r = "yes") || bool_decide (Js.toLowerCase r = "true")
  | None => false
  end.

(** [`B_${batchNumber}_TC_${String(counter).padStart(3, '0')}_${suffix}`] *)
Definition make_id (batchNumber : string) (counter : nat) (suffix : string) : string :=
  "B_" +:+ batchNumber +:+ "_TC_" +:+ Js.padStart 3 "0" (Js.String_ counter)
    +:+ "_" +:+ suffix.

Section RowTemplates.
Variables (batchNumber sourceField targetResource fhirAttribute
           transformRule dataType : string).
Let nl := Js.nl.

Definition functional_positive (counter : nat) : TestCase :=
  {| TestCaseID := make_id batchNumber counter "functional_positive";
     TestDescription :=
       "Validate successful mapping of " +:+ sourceField +:+ " to "
         +:+ targetResource +:+ "." +:+ fhirAttribute;
     TestSteps :=
       "1. Parse input data containing " +:+ sourceField +:+ nl
         +:+ "2. Extract " +:+ sourceField +:+ " value" +:+ nl
         +:+ "3. Apply transformation: " +:+ transformRule +:+ nl
         +:+ "4. Map to FHIR " +:+ targetResource +:+ "." +:+ fhirAttribute +:+ nl
         +:+ "5. Validate FHIR resource structure";
     ExpectedResults :=
       "FHIR " +:+ targetResource +:+ " resource created successfully with "
         +:+ fhirAttribute +:+ " populated correctly as " +:+ dataType;
     TestCaseType := "FUNCTIONAL";
     Subtype := "POSITIVE" |}.

Definition functional_negative (counter : nat) : TestCase :=
  {| TestCaseID := make_id batchNumber counter "functional_negative";
     TestDescription :=
       "Validate error handling for invalid " +:+ sourceField +:+ " data";
     TestSteps :=
       "1. Parse input with invalid " +:+ dataType +:+ " for " +:+ sourceField +:+ nl
         +:+ "2. Attempt transformation: " +:+ transformRule +:+ nl
         +:+ "3. Validation fails for " +:+ targetResource +:+ "." +:+ fhirAttribute +:+ nl
         +:+ "4. System logs error with field name and value" +:+ nl
         +:+ "5. Return validation error response";
     ExpectedResults :=
       "System returns validation error indicating invalid " +:+ dataType
         +:+ " for " +:+ targetResource +:+ "." +:+ fhirAttribute;
     TestCaseType := "FUNCTIONAL";
     Subtype := "NEGATIVE" |}.

Definition edge_required (counter : nat) : TestCase :=
  {| TestCaseID := make_id batchNumber counter "edge_case";
     TestDescription := "Handle missing required field " +:+ sourceField;
     TestSteps :=
       "1. Parse input with missing " +:+ sourceField +:+ nl
         +:+ "2. Validate required field check" +:+ nl
         +:+ "3. System detects missing " +:+ targetResource +:+ "." +:+ fhirAttribute +:+ nl
         +:+ "4. Log validation error" +:+ nl
         +:+ "5. Return appropriate error response";
     ExpectedResults :=
       "System returns error indicating required field " +:+ sourceField
         +:+ " is missing from " +:+ targetResource;
     TestCaseType := "EDGE";
     Subtype := "NEGATIVE" |}.

Definition edge_optional (counter : nat) : TestCase :=
  {| TestCaseID := make_id batchNumber counter "edge_case";
     TestDescription := "Handle optional field " +:+ sourceField +:+ " when empty";
     TestSteps :=
       "1. Parse input with empty " +:+ sourceField +:+ nl
         +:+ "2. Check if field is optional" +:+ nl
         +:+ "3. Skip mapping for " +:+ targetResource +:+ "." +:+ fhirAttribute +:+ nl
         +:+ "4. Proceed with other mappings" +:+ nl
         +:+ "5. Create FHIR resource without this attribute";
     ExpectedResults :=
       "FHIR " +:+ targetResource +:+ " resource created successfully with "
         +:+ fhirAttribute +:+ " omitted (optional field)";
     TestCaseType := "EDGE";
     Subtype := "POSITIVE" |}.

Definition regression_positive (counter : nat) : TestCase :=
  {| TestCaseID := make_id batchNumber counter "regression_positive";
     TestDescription :=
       "Verify mapping consistency for " +:+ sourceField +:+ " after system updates";
     TestSteps :=
       "1. Establish baseline mapping for " +:+ sourceField +:+ nl
         +:+ "2. Apply system update/patch" +:+ nl
         +:+ "3. Re-test " +:+ sourceField +:+ " to " +:+ targetResource +:+ "."
         +:+ fhirAttribute +:+ " mapping" +:+ nl
         +:+ "4. Compare results with baseline" +:+ nl
         +:+ "5. Validate no regression in mapping logic";
     ExpectedResults :=
       sourceField +:+ " to " +:+ targetResource +:+ "." +:+ fhirAttribute
         +:+ " mapping produces identical results to baseline; no regression detected";
     TestCaseType := "REGRESSION";
     Subtype := "POSITIVE" |}.
End RowTemplates.

(** The loop state of [generateTestCasesFromCSV]: the array being filled and
    the running [counter]. *)
Record GenState := mkGen { testCases : list TestCase; counter : nat }.

(** [testCases.push(mk(counter++))] *)
Definition push (mk : nat → TestCase) (st : GenState) : GenState :=
  {| testCases := testCases st ++ [mk (counter st)]; counter := S (counter st) |}.

(** The body of [csvRows.forEach((row, index) => ...)]. *)
Definition gen_row (batchNumber : string) (st : GenState) (cell : nat * CSVRow)
    : GenState :=
  let '(index, row) := cell in
  let sourceField :=
    Js.or_default (row !! "Source_Field") ("Field_" +:+ Js.String_ (index + 1)) in
  let targetResource := Js.or_default (row !! "Target_FHIR_Resource") "Resource" in
  let fhirAttribute := Js.or_default (row !! "FHIR_Attribute") "attribute" in
  let transformRule := Js.or_default (row !! "Transformation_Rule") "Direct mapping" in
  let dataType := Js.or_default (row !! "Data_Type") "string" in
  let st := push (functional_positive batchNumber sourceField targetResource
                    fhirAttribute transformRule dataType) st in
  let st := push (functional_negative batchNumber sourceField targetResource
                    fhirAttribute transformRule dataType) st in
  let st :=
    if isRequired row
    then push (edge_required batchNumber sourceField targetResource fhirAttribute) st
    else push (edge_optional batchNumber sourceField targetResource fhirAttribute) st in
  if (index + 1) mod 3 =? 0
  then push (regression_positive batchNumber sourceField targetResource fhirAttribute) st
  else st.

Definition generateTestCasesFromCSV (csvRows : list CSVRow) (batchNumber : string)
    : list TestCase :=
  testCases (fold_left (gen_row batchNumber) (imap pair csvRows)
               {| testCases := []; counter := 1 |}).

(** ** Statistics ([MockTestCaseGenerator.calculateStatistics]) *)

(** A [Record<string, number>] filled by the generator.  The finite map is
    exact for every key that is not a member of [Object.prototype]; the
    generator only uses the type and subtype names of its templates. *)
Abbreviation Breakdown := (gmap string nat).

(** [m[key] = (m[key] || 0) + 1] *)
Definition bump (key : string) (m : Breakdown) : Breakdown :=
  let old := match m !! key with
             | Some n => if n =? 0 then 0 else n
             | None => 0
             end in
  <[key := old + 1]> m.

Record StatisticalSummary := mkSummary {
  TotalTestCases : nat;
  TestCaseTypeBreakdown : Breakdown;
  SubtypeBreakdown : Breakdown;
  MappingRows : nat;
  UniqueAttributes : nat;
}.

(** The body of [testCases.forEach(tc => ...)]. *)
Definition count_case (acc : Breakdown * Breakdown) (tc : TestCase)
    : Breakdown * Breakdown :=
  (bump (TestCaseType tc) acc.1, bump (Subtype tc) acc.2).

(** [new Set(csvRows.map(row => row.FHIR_Attribute).filter(Boolean))] *)
Definition unique_attributes (csvRows : list CSVRow) : gset string :=
  list_to_set
    (filter (λ a, Js.truthy a = true) (omap (λ row : CSVRow, row !! "FHIR_Attribute") csvRows)).

Definition calculateStatistics (tcs : list TestCase) (csvRows : list CSVRow)
    : StatisticalSummary :=
  let '(typeBreakdown, subtypeBreakdown) := fold_left count_case tcs (∅, ∅) in
  {| TotalTestCases := length tcs;
     TestCaseTypeBreakdown := typeBreakdown;
     SubtypeBreakdown := subtypeBreakdown;
     MappingRows := length csvRows;
     UniqueAttributes := size (unique_attributes csvRows) |}.

(** The sum of the counts of a breakdown. *)
Definition breakdown_sum (m : Breakdown) : nat :=
  map_fold (λ _ n acc, n + acc) 0 m.

(** ** CSV export ([GCSService.generateCSV], [GCSService.escapeCSV]) *)

Definition escapeCSV (value : string) : string :=
  if Js.includes Js.COMMA value || Js.includes Js.DQUOTE value || Js.includes Js.LF value
  then String Js.DQUOTE
         (Js.replaceAll Js.DQUOTE (String Js.DQUOTE (String Js.DQUOTE EmptyString)) value)
       +:+ String Js.DQUOTE EmptyString
  else value.

Definition csv_headers : list string :=
  ["TestCaseID"; "TestDescription"; "TestSteps"; "ExpectedResults";
   "TestCaseType"; "Subtype"].

Definition csv_cells (tc : TestCase) : list string :=
  [escapeCSV (TestCaseID tc); escapeCSV (TestDescription tc);
   escapeCSV (TestSteps tc); escapeCSV (ExpectedResults tc);
   escapeCSV (TestCaseType tc); escapeCSV (Subtype tc)].

Definition generateCSV (tcs : list TestCase) : string :=
  let rows := map csv_cells tcs in
  let csvLines := Js.join "," csv_headers :: map (Js.join ",") rows in
  Js.join Js.nl csvLines.

(** ** Persisted records ([gcs-service.ts]) *)

Inductive Status := pending | processing | completed | failed.

Global Instance Status_eq_dec : EqDecision Status.
Proof. solve_decision. Defined.

Record StatusData := mkStatusData {
  status : Status;
  created_at : string;
  updated_at : string;
  error : option string;
}.

Record MetadataParams := mkParams {
  meta_batch_number : option string;
  meta_user_id : option string;
  meta_csv_length : option nat;
  meta_github_url : option string;
  meta_session_id : option string;
  meta_batch_size : option Z;
}.

(** The object written to [metadata.json]: [{ params, created_at }]. *)
Record Metadata := mkMetadata {
  params : MetadataParams;
  metadata_created_at : string;
}.

Record TestCaseRequest := mkRequest {
  csv_mapping : string;
  batch_number : string;
  user_id : string;
  github_url : option string;
  session_id : option string;
  batch_size : option Z;
}.

Record TestCaseResponse := mkResponse {
  TestCases : list TestCase;
  StatisticalSummary_ : StatisticalSummary;
  response_github_url : option string;
  generated_at : string;
}.

(** The job store.  One map per artifact kind, keyed by job id: the objects
    [jobs/{id}/status.json], [input.csv], [metadata.json], [results.json] and
    [output.csv].  JSON documents are kept as the values they encode. *)
Record Store := mkStore {
  statusFiles : gmap string StatusData;
  inputFiles : gmap string string;
  metadataFiles : gmap string Metadata;
  resultsFiles : gmap string TestCaseResponse;
  outputFiles : gmap string string;
}.

Definition empty_store : Store := mkStore ∅ ∅ ∅ ∅ ∅.

(** ** The environment and the effect monad *)

(** A thrown value: an [Error] with its message, or anything else. *)
Inductive Thrown := JsError (message : string) | NonError.

(** [error instanceof Error ? error.message : 'Unknown error'] *)
Definition message_of (e : Thrown) : string :=
  match e with
  | JsError m => m
  | NonError => "Unknown error"
  end.

(** Request bodies as [express.json()] delivers them.  A number is carried
    when it is an integer, exactly up to 2^53 in magnitude. *)
Inductive Json :=
  | JUndefined | JNull | JBool (b : bool) | JNumber (z : Z)
  | JString (s : string) | JStructured.

Record Body := mkBody {
  body_csv_mapping : Json;
  body_batch_number : Json;
  body_user_id : Json;
  body_github_url : Json;
  body_session_id : Json;
  body_batch_size : Json;
}.

(** The result object of [githubService.fetchCSVFromGitHub]. *)
Record FetchResult := mkFetch {
  success : bool;
  content : option string;
  fetch_error : option string;
}.

(** What the program does not decide.  Every read access and every write
    access to the backing storage, every pure step of a background task,
    every reading of the clock and every draw of a job id is numbered; the
    environment fixes its outcome.  [fetchCSVFromGitHub] belongs to
    [server/github-service.ts], whose source is not part of the development:
    it is taken as given, as is the text of a schema violation. *)
Record Env := mkEnv {
  read_error : nat → option Thrown;
  write_error : nat → option Thrown;
  runtime_error : nat → option Thrown;
  clock : nat → string;
  uuid : nat → string;
  fetchCSVFromGitHub : string → Thrown + FetchResult;
  zod_message : option Body → string;
}.

(** A closure handed to [setImmediate] by [generateTestCases]. *)
Record Task := mkTask { task_jobId : string; task_request : TestCaseRequest }.

Record World := mkWorld {
  store : Store;
  immediates : list Task;
  readCount : nat;
  writeCount : nat;
  stepCount : nat;
  clockCount : nat;
  uuidCount : nat;
}.

Definition set_store (s : Store) (w : World) : World :=
  mkWorld s (immediates w) (readCount w) (writeCount w) (stepCount w)
    (clockCount w) (uuidCount w).

Definition set_immediates (q : list Task) (w : World) : World :=
  mkWorld (store w) q (readCount w) (writeCount w) (stepCount w)
    (clockCount w) (uuidCount w).

Inductive Outcome (A : Type) := Ret (a : A) | Throw (e : Thrown).
Arguments Ret {A} a.
Arguments Throw {A} e.

Definition M (A : Type) : Type := World → Outcome A * World.

Definition ret {A} (a : A) : M A := λ w, (Ret a, w).

Definition throw {A} (e : Thrown) : M A := λ w, (Throw e, w).

Definition bind {A B} (c : M A) (k : A → M B) : M B :=
  λ w, match c w with
       | (Ret a, w') => k a w'
       | (Throw e, w') => (Throw e, w')
       end.

(** [try { c } catch (error) { handler(error) }] *)
Definition try_catch {A} (c : M A) (handler : Thrown → M A) : M A :=
  λ w, match c w with
       | (Ret a, w') => (Ret a, w')
       | (Throw e, w') => handler e w'
       end.

Declare Scope job_scope.
Delimit Scope job_scope with job.
Notation "x <- c ;; k" := (bind c (λ x, k))
  (at level 100, c at next level, right associativity) : job_scope.
Notation "c ;; k" := (bind c (λ _, k))
  (at level 100, right associativity) : job_scope.
Local Open Scope job_scope.

Definition get_store : M Store := λ w, (Ret (store w), w).
Definition put_store (s : Store) : M unit := λ w, (Ret tt, set_store s w).

Definition tick_read (w : World) : World :=
  mkWorld (store w) (immediates w) (S (readCount w)) (writeCount w) (stepCount w)
    (clockCount w) (uuidCount w).
Definition tick_write (w : World) : World :=
  mkWorld (store w) (immediates w) (readCount w) (S (writeCount w)) (stepCount w)
    (clockCount w) (uuidCount w).
Definition tick_step (w : World) : World :=
  mkWorld (store w) (immediates w) (readCount w) (writeCount w) (S (stepCount w))
    (clockCount w) (uuidCount w).
Definition tick_clock (w : World) : World :=
  mkWorld (store w) (immediates w) (readCount w) (writeCount w) (stepCount w)
    (S (clockCount w)) (uuidCount w).
Definition tick_uuid (w : World) : World :=
  mkWorld (store w) (immediates w) (readCount w) (writeCount w) (stepCount w)
    (clockCount w) (S (uuidCount w)).

Definition set_statusFiles (m : gmap string StatusData) (s : Store) : Store :=
  mkStore m (inputFiles s) (metadataFiles s) (resultsFiles s) (outputFiles s).
Definition set_inputFiles (m : gmap string string) (s : Store) : Store :=
  mkStore (statusFiles s) m (metadataFiles s) (resultsFiles s) (outputFiles s).
Definition set_metadataFiles (m : gmap string Metadata) (s : Store) : Store :=
  mkStore (statusFiles s) (inputFiles s) m (resultsFiles s) (outputFiles s).
Definition set_resultsFiles (m : gmap string TestCaseResponse) (s : Store) : Store :=
  mkStore (statusFiles s) (inputFiles s) (metadataFiles s) m (outputFiles s).
Definition set_outputFiles (m : gmap string string) (s : Store) : Store :=
  mkStore (statusFiles s) (inputFiles s) (metadataFiles s) (resultsFiles s) m.

(** The request data after [schema.parse]. *)
Record Validated := mkValidated {
  v_csv_mapping : option string;
  v_batch_number : string;
  v_user_id : string;
  v_github_url : option string;
  v_session_id : option string;
  v_batch_size : option Z;
}.

(** Responses of the three job routes, with their HTTP status. *)
Inductive Response :=
  | JobStarted (job_id message status_url results_url : string)
  | FetchFailed (details : option string) (timestamp : string)
  | NoCsvContent (timestamp : string)
  | StartFailed (details timestamp : string)
  | JobNotFound (job_id : string)
  | StatusReport (s : StatusData)
  | StatusFailed (details : string)
  | JobNotCompleted (current_status : Status) (job_id : string)
  | ResultsUnreadable (job_id : string)
  | JobResults (test_cases : list TestCase) (statistical_summary : StatisticalSummary)
      (results_github_url : option string) (csv_download_url generated : string)
  | ResultsFailed (details : string).

Definition http_status (r : Response) : nat :=
  match r with
  | JobStarted _ _ _ _ | StatusReport _ | JobResults _ _ _ _ _ => 200
  | FetchFailed _ _ | NoCsvContent _ | JobNotCompleted _ _ => 400
  | JobNotFound _ => 404
  | StartFailed _ _ | StatusFailed _ | ResultsUnreadable _ | ResultsFailed _ => 500
  end.

Section Server.
Variable env : Env.

(** *** Primitive effects *)

(** One read access to the backing storage (local disk or bucket): the
    existence check and the download of an object. *)
Definition storage_read : M unit := λ w,
  match read_error env (readCount w) with
  | Some e => (Throw e, tick_read w)
  | None => (Ret tt, tick_read w)
  end.

(** One write access: [mkdir], or the save of an object (on disk, the
    write of a temporary file and its rename). *)
Definition storage_write : M unit := λ w,
  match write_error env (writeCount w) with
  | Some e => (Throw e, tick_write w)
  | None => (Ret tt, tick_write w)
  end.

(** A pure step of a background task, which the runtime may abort (for
    instance [RangeError: Invalid string length] on a very large join). *)
Definition pure_step {A} (v : A) : M A := λ w,
  match runtime_error env (stepCount w) with
  | Some e => (Throw e, tick_step w)
  | None => (Ret v, tick_step w)
  end.

(** [new Date().toISOString()] *)
Definition now : M string := λ w, (Ret (clock env (clockCount w)), tick_clock w).

Definition uuidv4 : M string := λ w, (Ret (uuid env (uuidCount w)), tick_uuid w).

Definition setImmediate (t : Task) : M unit := λ w,
  (Ret tt, set_immediates (immediates w ++ [t]) w).

(** *** The job store ([GCSService]) *)

Definition ensureJobDirectory (jobId : string) : M unit := storage_write.

Definition readJobStatus (jobId : string) : M (option StatusData) :=
  try_catch
    (storage_read ;;
     s <- get_store ;;
     ret (statusFiles s !! jobId))
    (λ _, ret None).

Definition writeJobStatus (jobId : string) (st : Status) (err : option string)
    : M bool :=
  try_catch
    (ensureJobDirectory jobId ;;
     existingStatus <- readJobStatus jobId ;;
     created <- match existingStatus with
                | Some e => if Js.truthy (created_at e) then ret (created_at e) else now
                | None => now
                end ;;
     updated <- now ;;
     let statusData :=
       {| status := st; created_at := created; updated_at := updated;
          error := match err with
                   | Some e => if Js.truthy e then Some e else None
                   | None => None
                   end |} in
     storage_write ;;
     s <- get_store ;;
     put_store (set_statusFiles (<[jobId := statusData]> (statusFiles s)) s) ;;
     ret true)
    (λ _, ret false).

Definition writeCSVContent (jobId csvContent : string) : M bool :=
  try_catch
    (ensureJobDirectory jobId ;;
     storage_write ;;
     s <- get_store ;;
     put_store (set_inputFiles (<[jobId := csvContent]> (inputFiles s)) s) ;;
     ret true)
    (λ _, ret false).

Definition writeMetadata (jobId : string) (p : MetadataParams) : M bool :=
  try_catch
    (ensureJobDirectory jobId ;;
     t <- now ;;
     let metadata := {| params := p; metadata_created_at := t |} in
     storage_write ;;
     s <- get_store ;;
     put_store (set_metadataFiles (<[jobId := metadata]> (metadataFiles s)) s) ;;
     ret true)
    (λ _, ret false).

Definition writeResults (jobId : string) (results : TestCaseResponse) : M bool :=
  try_catch
    (ensureJobDirectory jobId ;;
     storage_write ;;
     s <- get_store ;;
     put_store (set_resultsFiles (<[jobId := results]> (resultsFiles s)) s) ;;
     ret true)
    (λ _, ret false).

Definition readResults (jobId : string) : M (option TestCaseResponse) :=
  try_catch
    (storage_read ;;
     s <- get_store ;;
     ret (resultsFiles s !! jobId))
    (λ _, ret None).

Definition writeCSVOutput (jobId csvContent : string) : M bool :=
  try_catch
    (ensureJobDirectory jobId ;;
     storage_write ;;
     s <- get_store ;;
     put_store (set_outputFiles (<[jobId := csvContent]> (outputFiles s)) s) ;;
     ret true)
    (λ _, ret false).

(** *** The orchestrator ([MockTestCaseGenerator.generateTestCases]) *)

(** The [try] block of the function passed to [setImmediate].
    ([delay] only waits.) *)
Definition background_steps (jobId : string) (request : TestCaseRequest) : M unit :=
  writeJobStatus jobId processing None ;;
  csvRows <- pure_step (parseCSV (csv_mapping request)) ;;
  tcs <- pure_step (generateTestCasesFromCSV csvRows (batch_number request)) ;;
  summary <- pure_step (calculateStatistics tcs csvRows) ;;
  t <- now ;;
  let response :=
    {| TestCases := tcs; StatisticalSummary_ := summary;
       response_github_url := github_url request; generated_at := t |} in
  writeResults jobId response ;;
  csvOutput <- pure_step (generateCSV tcs) ;;
  writeCSVOutput jobId csvOutput ;;
  writeJobStatus jobId completed None ;;
  ret tt.

(** Its [catch] block. *)
Definition background_failed (jobId : string) (error : Thrown) : M unit :=
  writeJobStatus jobId failed (Some (message_of error)) ;;
  ret tt.

(** The function passed to [setImmediate]. *)
Definition backgroundTask (jobId : string) (request : TestCaseRequest) : M unit :=
  try_catch (background_steps jobId request) (background_failed jobId).

(** Returns the job id (the [response] member of the result is [{}]). *)
Definition generateTestCases (request : TestCaseRequest) : M string :=
  jobId <- uuidv4 ;;
  try_catch
    (writeJobStatus jobId pending None ;;
     writeCSVContent jobId (csv_mapping request) ;;
     let metadata :=
       {| meta_batch_number := Some (batch_number request);
          meta_user_id := Some (user_id request);
          meta_csv_length := Some (Js.length (csv_mapping request));
          meta_github_url := github_url request;
          meta_session_id := session_id request;
          meta_batch_size := batch_size request |} in
     writeMetadata jobId metadata ;;
     setImmediate {| task_jobId := jobId; task_request := request |} ;;
     ret jobId)
    (λ error,
       writeJobStatus jobId failed (Some (message_of error)) ;;
       throw error).

(** *** Routes ([routes.ts]) *)

Definition optional_string (j : Json) : option (option string) :=
  match j with
  | JUndefined => Some None
  | JString s => Some (Some s)
  | _ => None
  end.

Definition required_string (j : Json) : option string :=
  match j with
  | JString s => if 1 <=? Js.length s then Some s else None
  | _ => None
  end.

Definition optional_number (j : Json) : option (option Z) :=
  match j with
  | JUndefined => Some None
  | JNumber z => Some (Some z)
  | _ => None
  end.

(** The [z.object({...})] schema of the submit route. *)
Definition schema_check (body : option Body) : option Validated :=
  match body with
  | None => None
  | Some b =>
      match optional_string (body_csv_mapping b), required_string (body_batch_number b),
            required_string (body_user_id b), optional_string (body_github_url b),
            optional_string (body_session_id b), optional_number (body_batch_size b) with
      | Some c, Some bn, Some u, Some g, Some s, Some n => Some (mkValidated c bn u g s n)
      | _, _, _, _, _, _ => None
      end
  end.

(** [schema.parse(req.body)]: throws a [ZodError] on a violation. *)
Definition schema_parse (body : option Body) : M Validated :=
  match schema_check body with
  | Some v => ret v
  | None => throw (JsError (zod_message env body))
  end.

Definition await_fetch (url : string) : M FetchResult :=
  match fetchCSVFromGitHub env url with
  | inl e => throw e
  | inr r => ret r
  end.

(** [POST /api/ccda-gen-test-cases].  The inner sum carries an early
    [return res.status(400)...]. *)
Definition submit (body : option Body) : M Response :=
  try_catch
    (validatedData <- schema_parse body ;;
     let csvContent := Js.or_default (v_csv_mapping validatedData) EmptyString in
     resolved <-
       match v_github_url validatedData with
       | Some url =>
           if Js.truthy url then
             csvResult <- await_fetch url ;;
             if negb (success csvResult)
                || negb (Js.truthy (Js.or_default (content csvResult) EmptyString))
             then t <- now ;; ret (inl (FetchFailed (fetch_error csvResult) t))
             else ret (inr (Js.or_default (content csvResult) EmptyString))
           else ret (inr csvContent)
       | None => ret (inr csvContent)
       end ;;
     match resolved with
     | inl early => ret early
     | inr csvContent =>
         if negb (Js.truthy csvContent) then
           t <- now ;; ret (NoCsvContent t)
         else
           jobId <- generateTestCases
                      {| csv_mapping := csvContent;
                         batch_number := v_batch_number validatedData;
                         user_id := v_user_id validatedData;
                         github_url := v_github_url validatedData;
                         session_id := v_session_id validatedData;
                         batch_size := v_batch_size validatedData |} ;;
           ret (JobStarted jobId "Test case generation started"
                  ("/api/status/" +:+ jobId) ("/api/results/" +:+ jobId))
     end)
    (λ error, t <- now ;; ret (StartFailed (message_of error) t)).

(** [GET /api/status/:jobId] *)
Definition poll_status (jobId : string) : M Response :=
  try_catch
    (st <- readJobStatus jobId ;;
     match st with
     | None => ret (JobNotFound jobId)
     | Some s => ret (StatusReport s)
     end)
    (λ error, ret (StatusFailed (message_of error))).

(** [GET /api/results/:jobId] *)
Definition results (jobId : string) : M Response :=
  try_catch
    (st <- readJobStatus jobId ;;
     match st with
     | None => ret (JobNotFound jobId)
     | Some s =>
         if negb (bool_decide (status s = completed)) then
           ret (JobNotCompleted (status s) jobId)
         else
           res <- readResults jobId ;;
           match res with
           | None => ret (ResultsUnreadable jobId)
           | Some r =>
               ret (JobResults (TestCases r) (StatisticalSummary_ r)
                      (match response_github_url r with
                       | Some u => if Js.truthy u then Some u else None
                       | None => None
                       end)
                      ("/api/download/" +:+ jobId) (generated_at r))
           end
     end)
    (λ error, ret (ResultsFailed (message_of error))).

(** *** The event loop *)

Inductive Request :=
  | PostSubmit (body : option Body)
  | GetStatus (jobId : string)
  | GetResults (jobId : string).

Definition handle (r : Request) : M Response :=
  match r with
  | PostSubmit body => submit body
  | GetStatus jobId => poll_status jobId
  | GetResults jobId => results jobId
  end.

(** Runs the oldest closure queued by [setImmediate], if any. *)
Definition run_immediate : M unit := λ w,
  match immediates w with
  | [] => (Ret tt, w)
  | t :: queue => backgroundTask (task_jobId t) (task_request t) (set_immediates queue w)
  end.

(** One turn of the server: a request is served, or a queued background
    task runs (to completion: the properties below concern the states
    before and after it). *)
Inductive step : World → World → Prop :=
  | step_request r w out w' : handle r w = (out, w') → step w w'
  | step_background w out w' : run_immediate w = (out, w') → step w w'.

Inductive reachable : World → Prop :=
  | reachable_init rd wr st ck uu :
      reachable (mkWorld empty_store [] rd wr st ck uu)
  | reachable_step w w' : reachable w → step w w' → reachable w'.

End Server.

(** ** The remaining store reads and routes ([gcs-service.ts], [routes.ts]) *)

Section Download.
Variable env : Env.

(** [GCSService.readCSVContent] *)
Definition readCSVContent (jobId : string) : M (option string) :=
  try_catch
    (storage_read env ;;
     s <- get_store ;;
     ret (inputFiles s !! jobId))
    (λ _, ret None).

(** [GCSService.readCSVOutput] *)
Definition readCSVOutput (jobId : string) : M (option string) :=
  try_catch
    (storage_read env ;;
     s <- get_store ;;
     ret (outputFiles s !! jobId))
    (λ _, ret None).

End Download.

(** Responses of [GET /api/download/:jobId]: the file, sent with its
    [Content-Disposition] header, or an error. *)
Inductive DownloadResponse :=
  | CsvFile (disposition content : string)
  | CsvNotFound (job_id : string)
  | DownloadFailed (details : string).

(** The characters [res.setHeader] accepts in a header value: a tab, and
    every character from 32 on but 127. *)
Definition is_header_char (c : ascii) : bool :=
  let n := nat_of_ascii c in
  (n =? 9) || ((32 <=? n) && negb (n =? 127)).

Fixpoint header_value_ok (value : string) : bool :=
  match value with
  | EmptyString => true
  | String c r => is_header_char c && header_value_ok r
  end.

(** [res.setHeader(name, value)]: a [TypeError] for a value with a
    character that is not allowed. *)
Definition setHeader (name value : string) : M unit :=
  if header_value_ok value then ret tt
  else throw (JsError ("Invalid character in header content ["
                       +:+ String Js.DQUOTE name +:+ String Js.DQUOTE "]")).

(** [GET /api/download/:jobId] *)
Definition download (env : Env) (jobId : string) : M DownloadResponse :=
  try_catch
    (csvContent <- readCSVOutput env jobId ;;
     match csvContent with
     | Some c =>
         if negb (Js.truthy c) then ret (CsvNotFound jobId)
         else
           let disposition := "attachment; filename=test-cases-" +:+ jobId +:+ ".csv" in
           setHeader "Content-Type" "text/csv" ;;
           setHeader "Content-Disposition" disposition ;;
           ret (CsvFile disposition c)
     | None => ret (CsvNotFound jobId)
     end)
    (λ error, ret (DownloadFailed (message_of error))).

(** The test methods of [POST /api/generate_pytest]. *)

(** [tc.TestCaseID.toLowerCase().replace(/-/g, '_')] *)
Definition pytest_ident (testCaseID : string) : string :=
  Js.replaceAll "-" "_" (Js.toLowerCase testCaseID).

(** The name of the test method written for a test case:
    [`test_${tc.TestCaseID.toLowerCase().replace(/-/g, '_')}`]. *)
Definition pytest_name (tc : TestCase) : string :=
  "test_" +:+ pytest_ident (TestCaseID tc).

(** ** Definitions used to state the properties *)

(** The identifier format as the specification words it:
    [B_{batch_number}_TC_{sequence:03d}_{type_lower}_{subtype_lower}]. *)
Definition spec_id (batchNumber : string) (sequence : nat) (tc : TestCase) : string :=
  "B_" +:+ batchNumber +:+ "_TC_" +:+ Js.padStart 3 "0" (Js.String_ sequence)
    +:+ "_" +:+ Js.toLowerCase (TestCaseType tc) +:+ "_" +:+ Js.toLowerCase (Subtype tc).

(** The last component of the identifiers the generator writes. *)
Definition id_suffix (tc : TestCase) : string :=
  if decide (TestCaseType tc = "EDGE") then "edge_case"
  else Js.toLowerCase (TestCaseType tc) +:+ "_" +:+ Js.toLowerCase (Subtype tc).

(** Test cases produced before the row of (0-based) index [i], and the number
    produced for that row. *)
Definition row_offset (i : nat) : nat := 3 * i + i / 3.
Definition row_size (i : nat) : nat := if (i + 1) mod 3 =? 0 then 4 else 3.

(** The test cases generated for the row of index [i]. *)
Definition row_cases (out : list TestCase) (i : nat) : list TestCase :=
  take (row_size i) (drop (row_offset i) out).

Definition has_kind (type subtype : string) (tc : TestCase) : Prop :=
  TestCaseType tc = type ∧ Subtype tc = subtype.

(** The row's [Required] cell reads yes or true, in any letter case. *)
Definition required_flag (row : CSVRow) : Prop :=
  ∃ r, row !! "Required" = Some r ∧ (Js.toLowerCase r = "yes" ∨ Js.toLowerCase r = "true").

(** The statistics invariant of a job result. *)
Definition stats_consistent (r : TestCaseResponse) : Prop :=
  let s := StatisticalSummary_ r in
  TotalTestCases s = length (TestCases r)
  ∧ breakdown_sum (TestCaseTypeBreakdown s) = TotalTestCases s
  ∧ breakdown_sum (SubtypeBreakdown s) = TotalTestCases s.

(** Standard CSV quoting, as the specification words it. *)
Fixpoint needs_quotes (field : string) : bool :=
  match field with
  | EmptyString => false
  | String c r =>
      bool_decide (c = Js.COMMA ∨ c = Js.DQUOTE ∨ c = Js.LF) || needs_quotes r
  end.

Fixpoint double_quotes (field : string) : string :=
  match field with
  | EmptyString => EmptyString
  | String c r =>
      if decide (c = Js.DQUOTE) then String Js.DQUOTE (String Js.DQUOTE (double_quotes r))
      else String c (double_quotes r)
  end.

Definition spec_field (field : string) : string :=
  if needs_quotes field
  then String Js.DQUOTE (double_quotes field +:+ String Js.DQUOTE EmptyString)
  else field.

Definition spec_row (tc : TestCase) : string :=
  spec_field (TestCaseID tc) +:+ "," +:+ spec_field (TestDescription tc) +:+ ","
    +:+ spec_field (TestSteps tc) +:+ "," +:+ spec_field (ExpectedResults tc) +:+ ","
    +:+ spec_field (TestCaseType tc) +:+ "," +:+ spec_field (Subtype tc).

Fixpoint spec_rows (tcs : list TestCase) : string :=
  match tcs with
  | [] => EmptyString
  | tc :: rest => Js.nl +:+ spec_row tc +:+ spec_rows rest
  end.

Definition spec_csv (tcs : list TestCase) : string :=
  "TestCaseID,TestDescription,TestSteps,ExpectedResults,TestCaseType,Subtype"
    +:+ spec_rows tcs.

(** The test cases pushed by one iteration of the generator's loop, for the
    row of index [index], when the counter stands at [c]. *)
Definition row_block (batchNumber : string) (index : nat) (row : CSVRow) (c : nat)
    : list TestCase :=
  let sourceField :=
    Js.or_default (row !! "Source_Field") ("Field_" +:+ Js.String_ (index + 1)) in
  let targetResource := Js.or_default (row !! "Target_FHIR_Resource") "Resource" in
  let fhirAttribute := Js.or_default (row !! "FHIR_Attribute") "attribute" in
  let transformRule := Js.or_default (row !! "Transformation_Rule") "Direct mapping" in
  let dataType := Js.or_default (row !! "Data_Type") "string" in
  [functional_positive batchNumber sourceField targetResource fhirAttribute
     transformRule dataType c;
   functional_negative batchNumber sourceField targetResource fhirAttribute
     transformRule dataType (c + 1);
   (if isRequired row
    then edge_required batchNumber sourceField targetResource fhirAttribute (c + 2)
    else edge_optional batchNumber sourceField targetResource fhirAttribute (c + 2))]
  ++ (if (index + 1) mod 3 =? 0
      then [regression_positive batchNumber sourceField targetResource fhirAttribute (c + 3)]
      else []).

(** The blocks of the rows [rows], the first of which has index [k]. *)
Fixpoint blocks (batchNumber : string) (k : nat) (rows : list CSVRow) : list TestCase :=
  match rows with
  | [] => []
  | row :: rest =>
      row_block batchNumber k row (1 + row_offset k) ++ blocks batchNumber (S k) rest
  end.

Definition is_digit (c : ascii) : bool :=
  (48 <=? nat_of_ascii c) && (nat_of_ascii c <=? 57).

Fixpoint all_digits (s : string) : bool :=
  match s with
  | EmptyString => true
  | String c r => is_digit c && all_digits r
  end.

(** [k] leading zeros in front of a numeral. *)
Fixpoint zeros (k : nat) (d : Decimal.uint) : Decimal.uint :=
  match k with
  | 0 => d
  | S k => Decimal.D0 (zeros k d)
  end.

(** C6 as the specification states it. *)
Definition ids_as_specified (rows : list CSVRow) (batchNumber : string) : Prop :=
  let out := generateTestCasesFromCSV rows batchNumber in
  (∀ k tc, out !! k = Some tc → TestCaseID tc = spec_id batchNumber (k + 1) tc)
  ∧ NoDup (TestCaseID <$> out).

(** *** A small program logic for [M] *)

Definition triple {A} (P : World → Prop) (c : M A)
    (Q : A → World → Prop) (E : Thrown → World → Prop) : Prop :=
  ∀ w, P w →
    match c w with
    | (Ret a, w') => Q a w'
    | (Throw e, w') => E e w'
    end.

(** [c] keeps a property of the store, whatever its outcome. *)
Definition keeps {A} (I : Store → Prop) (c : M A) : Prop :=
  triple (λ w, I (store w)) c (λ _ w, I (store w)) (λ _ w, I (store w)).

(** [c] returns normally. *)
Definition returns {A} (c : M A) : Prop :=
  triple (λ _, True) c (λ _ _, True) (λ _ _, False).

(** Every persisted job result has consistent statistics. *)
Definition results_ok (s : Store) : Prop :=
  ∀ id r, resultsFiles s !! id = Some r → stats_consistent r.

(** *** Statements about the routes and the orchestrator *)

(** A remote fetch that does not deliver CSV text. *)
Definition fetch_failed (env : Env) (url : string) : Prop :=
  match fetchCSVFromGitHub env url with
  | inl _ => True
  | inr r => success r = false ∨ content r = None ∨ content r = Some EmptyString
  end.

(** A submission that fails validation: the body violates the schema, or its
    [github_url] cannot be fetched, or, without [github_url], it carries no
    [csv_mapping] text. *)
Definition fails_validation (env : Env) (body : option Body) : Prop :=
  ∀ v, schema_check body = Some v →
    match v_github_url v with
    | Some (String c u) => fetch_failed env (String c u)
    | _ => v_csv_mapping v = None ∨ v_csv_mapping v = Some EmptyString
    end.

(** A sequence of status writes for one job. *)
Fixpoint status_writes (env : Env) (jobId : string)
    (writes : list (Status * option string)) : M unit :=
  match writes with
  | [] => ret tt
  | (st, err) :: rest =>
      writeJobStatus env jobId st err ;; status_writes env jobId rest
  end.

(** The artifacts of all jobs other than the status records. *)
Definition other_artifacts (s : Store)
    : gmap string string * gmap string Metadata * gmap string TestCaseResponse
      * gmap string string :=
  (inputFiles s, metadataFiles s, resultsFiles s, outputFiles s).

(** C1 as the specification states it. *)
Definition poll_after_submit_pending (env : Env) (body : option Body) (w : World) : Prop :=
  ∀ jobId m su ru w',
    submit env body w = (Ret (JobStarted jobId m su ru), w') →
    ∃ s, (poll_status env jobId w').1 = Ret (StatusReport s) ∧ status s = pending.


(** C8 as the specification states it: a sequence of status writes never
    changes the creation time of the record it finds. *)
Definition created_at_kept (env : Env) (jobId : string)
    (writes : list (Status * option string)) (w : World) : Prop :=
  ∀ s, statusFiles (store w) !! jobId = Some s →
    ∃ s', statusFiles (store (status_writes env jobId writes w).2) !! jobId = Some s'
      ∧ created_at s' = created_at s.

(** C2 as the specification states it: whatever exception is raised while
    the background task runs, in a store access or in a pure step, the job
    ends with a failed status that carries its message. *)
Definition failure_recorded (env : Env) (jobId : string) (request : TestCaseRequest)
    (w : World) : Prop :=
  let w' := (backgroundTask env jobId request w).2 in
  ∀ n e,
    (readCount w ≤ n < readCount w' ∧ read_error env n = Some e)
    ∨ (writeCount w ≤ n < writeCount w' ∧ write_error env n = Some e)
    ∨ (stepCount w ≤ n < stepCount w' ∧ runtime_error env n = Some e) →
    ∃ s, statusFiles (store w') !! jobId = Some s
      ∧ status s = failed ∧ error s = Some (message_of e).

(** A CSV text that, once trimmed, is a single line. *)
Definition header_only (csvContent : string) : Prop :=
  Js.includes Js.LF (Js.trim csvContent) = false.

(** *** Concrete inputs *)

(** The mapping of the specification's happy-path scenario. *)
Definition scenario_csv : string :=
  "Source_Field,Target_FHIR_Resource,FHIR_Attribute,Transformation_Rule,Data_Type,Required"
    +:+ Js.nl +:+ "name,Patient,name,Direct,string,Yes".

(** Its data row, as parsed. *)
Definition scenario_row : CSVRow :=
  <["Source_Field" := "name"]> (<["Target_FHIR_Resource" := "Patient"]>
    (<["FHIR_Attribute" := "name"]> (<["Transformation_Rule" := "Direct"]>
      (<["Data_Type" := "string"]> (<["Required" := "Yes"]> ∅))))).

Definition sample_clock (n : nat) : string :=
  "2025-01-01T00:00:00." +:+ Js.padStart 3 "0" (Js.String_ n) +:+ "Z".

Definition sample_uuid (n : nat) : string := "job-" +:+ Js.String_ n.

Definition sample_fetch (url : string) : Thrown + FetchResult :=
  inr {| success := false; content := None; fetch_error := Some "Not Found" |}.

(** No storage error and no aborted step. *)
Definition quiet_env : Env :=
  {| read_error := λ _, None; write_error := λ _, None; runtime_error := λ _, None;
     clock := sample_clock; uuid := sample_uuid;
     fetchCSVFromGitHub := sample_fetch; zod_message := λ _, "Invalid input" |}.

(** The [n]-th write access to the storage fails. *)
Definition write_fault_env (n : nat) : Env :=
  {| read_error := λ _, None;
     write_error := λ k, if k =? n then Some (JsError "EIO: i/o error") else None;
     runtime_error := λ _, None;
     clock := sample_clock; uuid := sample_uuid;
     fetchCSVFromGitHub := sample_fetch; zod_message := λ _, "Invalid input" |}.

(** The [n]-th read access to the storage fails. *)
Definition read_fault_env (n : nat) : Env :=
  {| read_error := λ k, if k =? n then Some (JsError "EIO: i/o error") else None;
     write_error := λ _, None;
     runtime_error := λ _, None;
     clock := sample_clock; uuid := sample_uuid;
     fetchCSVFromGitHub := sample_fetch; zod_message := λ _, "Invalid input" |}.

(** The [n]-th pure step of a background task is aborted. *)
Definition step_fault_env (n : nat) : Env :=
  {| read_error := λ _, None; write_error := λ _, None;
     runtime_error := λ k, if k =? n then Some (JsError "Invalid string length") else None;
     clock := sample_clock; uuid := sample_uuid;
     fetchCSVFromGitHub := sample_fetch; zod_message := λ _, "Invalid input" |}.

Definition fresh_world : World := mkWorld empty_store [] 0 0 0 0 0.

Definition scenario_body : option Body :=
  Some (mkBody (JString scenario_csv) (JString "001") (JString "u1")
          JUndefined JUndefined JUndefined).

Definition scenario_request : TestCaseRequest :=
  mkRequest scenario_csv "001" "u1" None None None.

Definition header_request : TestCaseRequest :=
  mkRequest "Source_Field,Required" "001" "u1" None None None.

Definition empty_body : option Body :=
  Some (mkBody JUndefined (JString "001") (JString "u1") JUndefined JUndefined JUndefined).

(** The world after the scenario was submitted, and after its background
    task ran, without errors. *)
Definition submitted_world : World := (submit quiet_env scenario_body fresh_world).2.
Definition finished_world : World := (run_immediate quiet_env submitted_world).2.


(** *** Definitions used to state the further properties *)

(** Text of 7-bit characters: the text on which [Js.trim], [Js.toLowerCase]
    and [Js.length] are exactly [trim], [toLowerCase] and [length]. *)
Fixpoint is_ascii_text (s : string) : bool :=
  match s with
  | EmptyString => true
  | String c r => (nat_of_ascii c <? 128) && is_ascii_text r
  end.

(** A line that does not start with a quote. *)
Definition unquoted_start (tail : string) : Prop :=
  match tail with
  | EmptyString => True
  | String c _ => c ≠ Js.DQUOTE
  end.

(** What [parseCSV] guarantees about a cell [row[key] = value] of a row read
    from the data line [line] under the header line [header]. *)
Definition cell_of (header line key value : string) : Prop :=
  value ≠ EmptyString ∧ Js.trim value = value ∧ key ≠ "__proto__"
  ∧ ∃ index, parseCSVLine header !! index = Some key
             ∧ parseCSVLine line !! index = Some value.

(** A text that does not start with white space. *)
Definition starts_black (s : string) : Prop :=
  match s with
  | EmptyString => True
  | String c _ => Js.is_white c = false
  end.

(** The number of test cases whose [field] reads [key]. *)
Definition count_by (field : TestCase → string) (key : string) (tcs : list TestCase)
    : nat :=
  length (filter (λ tc, field tc = key) tcs).

(** The entry of a breakdown for a count: none for zero. *)
Definition entry (n : nat) : option nat := if n =? 0 then None else Some n.

(** The rows whose [Required] cell reads yes or true. *)
Definition required_rows (rows : list CSVRow) : nat :=
  length (filter (λ row, isRequired row = true) rows).

(** The type and subtype counts of the test cases generated for [n] rows,
    [required] of which are marked required. *)
Definition expected_types (n : nat) (key : string) : nat :=
  if decide (key = "FUNCTIONAL") then 2 * n
  else if decide (key = "EDGE") then n
  else if decide (key = "REGRESSION") then n / 3
  else 0.

Definition expected_subtypes (n required : nat) (key : string) : nat :=
  if decide (key = "POSITIVE") then n + (n - required) + n / 3
  else if decide (key = "NEGATIVE") then n + required
  else 0.

(** A job id that names its own directory on either backend: printable
    7-bit characters without a path separator, and none of the empty path,
    [.] and [..].  Every identifier drawn by [uuidv4] is one.  For such an id
    [path.join(base, 'jobs', jobId)] is [base/jobs/jobId], so that the store,
    keyed by job id, is exact. *)
Definition is_id_char (c : ascii) : bool :=
  let n := nat_of_ascii c in
  (32 <=? n) && (n <=? 126) && negb (n =? 47) && negb (n =? 92).

Fixpoint all_id_chars (jobId : string) : bool :=
  match jobId with
  | EmptyString => true
  | String c r => is_id_char c && all_id_chars r
  end.

Definition plain_id (jobId : string) : bool :=
  all_id_chars jobId
  && negb (bool_decide (jobId = EmptyString))
  && negb (bool_decide (jobId = "."))
  && negb (bool_decide (jobId = "..")).

(** Whether the two write accesses of a store write succeed: the creation
    of the job directory (which only the local backend performs) and the save
    of the object. *)
Definition writes_ok (env : Env) (w : World) : bool :=
  match write_error env (writeCount w) with
  | Some _ => false
  | None =>
      match write_error env (S (writeCount w)) with
      | Some _ => false
      | None => true
      end
  end.

(** The world after [n] more read accesses that changed nothing else. *)
Definition after_reads (n : nat) (w : World) : World :=
  mkWorld (store w) (immediates w) (n + readCount w) (writeCount w) (stepCount w)
    (clockCount w) (uuidCount w).

(** The artifacts of one job. *)
Definition job_view (s : Store) (jobId : string)
    : option StatusData * option string * option Metadata * option TestCaseResponse
      * option string :=
  (statusFiles s !! jobId, inputFiles s !! jobId, metadataFiles s !! jobId,
   resultsFiles s !! jobId, outputFiles s !! jobId).

(** The [error] member written with a status. *)
Definition stored_error (err : option string) : option string :=
  match err with
  | Some e => if Js.truthy e then Some e else None
  | None => None
  end.

(** The CSV text a validated submission resolves to: the text fetched from
    [github_url] when one is given, else the inline [csv_mapping]; none when
    the fetch fails or the text is empty. *)
Definition resolved_csv (env : Env) (v : Validated) : option string :=
  let inline := Js.or_default (v_csv_mapping v) EmptyString in
  match v_github_url v with
  | Some (String c u) =>
      match fetchCSVFromGitHub env (String c u) with
      | inr r =>
          if success r && Js.truthy (Js.or_default (content r) EmptyString)
          then Some (Js.or_default (content r) EmptyString)
          else None
      | inl _ => None
      end
  | _ => if Js.truthy inline then Some inline else None
  end.

(** The request handed to the orchestrator. *)
Definition request_of (v : Validated) (csv : string) : TestCaseRequest :=
  {| csv_mapping := csv;
     batch_number := v_batch_number v;
     user_id := v_user_id v;
     github_url := v_github_url v;
     session_id := v_session_id v;
     batch_size := v_batch_size v |}.

(** The parameters recorded in [metadata.json] for a request. *)
Definition metadata_of (request : TestCaseRequest) : MetadataParams :=
  {| meta_batch_number := Some (batch_number request);
     meta_user_id := Some (user_id request);
     meta_csv_length := Some (Js.length (csv_mapping request));
     meta_github_url := github_url request;
     meta_session_id := session_id request;
     meta_batch_size := batch_size request |}.

(** An error is recorded only with a failed status, and is not empty. *)
Definition errors_only_failed (s : Store) : Prop :=
  ∀ jobId x m, statusFiles s !! jobId = Some x → error x = Some m →
    status x = failed ∧ m ≠ EmptyString.

(** The artifacts of the job [other] are [view]. *)
Definition unchanged (other : string)
    (view : option StatusData * option string * option Metadata
            * option TestCaseResponse * option string) (s : Store) : Prop :=
  job_view s other = view.

(** The world after the scenario, completed, was submitted a second time. *)
Definition resubmitted_world : World := (submit quiet_env scenario_body finished_world).2.

(** The world after the scenario was submitted and its background task ran,
    when the first pure step of the task is aborted. *)
Definition aborted_world : World :=
  (run_immediate (step_fault_env 0)
     (submit (step_fault_env 0) scenario_body fresh_world).2).2.

(** A [batch_size] that the model carries exactly: none, or an integer that
    a double holds exactly. *)
Definition safe_integer (n : option Z) : bool :=
  match n with
  | Some z => (Z.abs z <=? 2 ^ 53)%Z
  | None => true
  end.

(** * Properties *)

(** ** The generator, row by row *)

Section Blocks.
Variable batchNumber : string.

Lemma gen_row_block st i row :
  gen_row batchNumber st (i, row)
  = {| testCases := testCases st ++ row_block batchNumber i row (counter st);
       counter := counter st + row_size i |}.
Proof.
  unfold gen_row, row_block, row_size, push.
  destruct (isRequired row), ((i + 1) mod 3 =? 0); simpl;
    rewrite <- ?app_assoc; simpl; repeat f_equal; lia.
Qed.

Lemma row_offset_S i : row_offset (S i) = row_offset i + row_size i.
Proof.
  unfold row_offset, row_size.
  replace (i + 1) with (S i) by lia.
  destruct (Nat.eqb_spec (S i mod 3) 0) as [H|H];
    pose proof (Nat.div_mod_eq (S i) 3); pose proof (Nat.div_mod_eq i 3);
    pose proof (Nat.mod_upper_bound i 3); pose proof (Nat.mod_upper_bound (S i) 3);
    lia.
Qed.

Lemma fold_gen_rows rows : ∀ k st,
  counter st = 1 + row_offset k →
  fold_left (gen_row batchNumber) (imap (λ i, pair (k + i)) rows) st
  = {| testCases := testCases st ++ blocks batchNumber k rows;
       counter := 1 + row_offset (k + length rows) |}.
Proof.
  induction rows as [|row rows IH]; intros k st Hc.
  - destruct st as [tcs c]; simpl in *. rewrite app_nil_r, Nat.add_0_r. congruence.
  - cbn [imap fold_left]. rewrite Nat.add_0_r, gen_row_block.
    rewrite (imap_ext _ (λ i, pair (S k + i))) by (intros; simpl; f_equal; lia).
    rewrite IH; cbn [testCases counter blocks length].
    + rewrite Hc, <- app_assoc. do 3 f_equal. lia.
    + rewrite Hc, row_offset_S. lia.
Qed.

Lemma generate_blocks rows :
  generateTestCasesFromCSV rows batchNumber = blocks batchNumber 0 rows.
Proof.
  unfold generateTestCasesFromCSV.
  rewrite (imap_ext _ (λ i, pair (0 + i))) by done.
  by rewrite fold_gen_rows.
Qed.

Lemma row_block_length i row c : length (row_block batchNumber i row c) = row_size i.
Proof. unfold row_block, row_size. by destruct ((i + 1) mod 3 =? 0). Qed.

Lemma blocks_length rows : ∀ k,
  length (blocks batchNumber k rows) + row_offset k = row_offset (k + length rows).
Proof.
  induction rows as [|row rows IH]; intros k; cbn [blocks length].
  - by rewrite Nat.add_0_r.
  - rewrite length_app, row_block_length.
    specialize (IH (S k)). rewrite row_offset_S in IH.
    replace (k + S (length rows)) with (S k + length rows) by lia. lia.
Qed.

Lemma blocks_app l1 l2 : ∀ k,
  blocks batchNumber k (l1 ++ l2)
  = blocks batchNumber k l1 ++ blocks batchNumber (k + length l1) l2.
Proof.
  induction l1 as [|row l1 IH]; intros k; cbn [blocks length app].
  - by rewrite Nat.add_0_r.
  - rewrite IH, <- app_assoc. do 3 f_equal. lia.
Qed.

(** The cases of the row of index [i] are its block. *)
Lemma row_cases_block rows i row :
  rows !! i = Some row →
  row_cases (blocks batchNumber 0 rows) i
  = row_block batchNumber i row (1 + row_offset i).
Proof.
  intros Hi. unfold row_cases.
  rewrite <- (take_drop_middle rows i row Hi), blocks_app. cbn [blocks].
  assert (Hlen : length (take i rows) = i).
  { rewrite length_take. apply lookup_lt_Some in Hi. lia. }
  rewrite Hlen.
  pose proof (blocks_length (take i rows) 0) as Hl.
  rewrite Hlen in Hl. simpl in Hl. change (row_offset 0) with 0 in Hl.
  rewrite drop_app_length' by lia.
  change (0 + i) with i.
  by rewrite take_app_length' by (by rewrite row_block_length).
Qed.

Lemma blocks_concat rows : ∀ k,
  blocks batchNumber k rows
  = concat (imap (λ i row, row_block batchNumber (k + i) row (1 + row_offset (k + i)))
              rows).
Proof.
  induction rows as [|row rows IH]; intros k; [done|].
  cbn [blocks imap concat]. rewrite Nat.add_0_r, IH. do 2 f_equal.
  apply imap_ext. intros i x _. simpl. by replace (k + S i) with (S (k + i)) by lia.
Qed.

(** The generated list is the concatenation of the cases of its rows. *)
Lemma row_cases_partition rows :
  let out := generateTestCasesFromCSV rows batchNumber in
  out = concat (imap (λ i _, row_cases out i) rows).
Proof.
  cbn zeta. rewrite generate_blocks. rewrite blocks_concat at 1.
  f_equal. apply imap_ext. intros i row Hi. simpl.
  symmetry. by apply row_cases_block.
Qed.

Lemma row_block_ids i row c j tc :
  row_block batchNumber i row c !! j = Some tc →
  TestCaseID tc = make_id batchNumber (c + j) (id_suffix tc).
Proof.
  unfold row_block.
  destruct (isRequired row), ((i + 1) mod 3 =? 0);
    destruct j as [|[|[|[|j]]]]; cbn [lookup list_lookup app];
    intros [= <-]; rewrite ?Nat.add_0_r; reflexivity.
Qed.

Lemma blocks_ids rows : ∀ k j tc,
  blocks batchNumber k rows !! j = Some tc →
  TestCaseID tc = make_id batchNumber (1 + row_offset k + j) (id_suffix tc).
Proof.
  induction rows as [|row rows IH]; intros k j tc; cbn [blocks]; [done|].
  intros [H|[Hge H]]%lookup_app_Some.
  - by apply row_block_ids in H.
  - rewrite row_block_length in Hge, H. apply IH in H. rewrite H.
    f_equal. rewrite row_offset_S. lia.
Qed.

Lemma row_block_kinds i row c :
  ∃ fp fn e rest,
    row_block batchNumber i row c = fp :: fn :: e :: rest
    ∧ has_kind "FUNCTIONAL" "POSITIVE" fp
    ∧ has_kind "FUNCTIONAL" "NEGATIVE" fn
    ∧ has_kind "EDGE" (if isRequired row then "NEGATIVE" else "POSITIVE") e
    ∧ (if (i + 1) mod 3 =? 0
       then ∃ r, rest = [r] ∧ has_kind "REGRESSION" "POSITIVE" r
       else rest = []).
Proof.
  unfold row_block.
  destruct (isRequired row), ((i + 1) mod 3 =? 0);
    do 4 eexists; (split; [reflexivity|]); repeat split; eauto;
    eexists; repeat split.
Qed.

Lemma generated_length rows :
  length (generateTestCasesFromCSV rows batchNumber)
  = 3 * length rows + length rows / 3.
Proof.
  rewrite generate_blocks.
  pose proof (blocks_length rows 0) as H. simpl in H.
  change (row_offset 0) with 0 in H. unfold row_offset in H. lia.
Qed.
End Blocks.

Lemma isRequired_flag row : isRequired row = true ↔ required_flag row.
Proof.
  unfold isRequired, required_flag. destruct (row !! "Required") as [r|].
  - rewrite orb_true_iff, !bool_decide_eq_true. split.
    + intros H. by exists r.
    + by intros (? & [= <-] & H).
  - split; [done|]. by intros (? & [=] & _).
Qed.

Lemma split_single c s : Js.includes c s = false → Js.split c s = [s].
Proof.
  induction s as [|a s IH]; [done|]. cbn [Js.includes Js.split].
  destruct (decide (a = c)); [done|]. intros H. by rewrite (IH H).
Qed.

Lemma parseCSV_header_only csv : header_only csv → parseCSV csv = [].
Proof. unfold header_only, parseCSV. intros H. by rewrite (split_single _ _ H). Qed.

(** ** Decimal numerals and identifiers *)

Lemma string_of_uint_digits d : all_digits (NilEmpty.string_of_uint d) = true.
Proof. induction d; simpl; auto. Qed.

Lemma repeat_zero_digits k s :
  all_digits s = true → all_digits (Js.repeat_char "0" k +:+ s) = true.
Proof. intros Hs. induction k; simpl; auto. Qed.

Lemma pad_digits n : all_digits (Js.padStart 3 "0" (Js.String_ n)) = true.
Proof. apply repeat_zero_digits, string_of_uint_digits. Qed.

Lemma uint_of_repeat_zero k d :
  NilEmpty.uint_of_string (Js.repeat_char "0" k +:+ NilEmpty.string_of_uint d)
  = Some (zeros k d).
Proof.
  induction k as [|k IH]; simpl.
  - apply NilEmpty.usu.
  - change (String.append (Js.repeat_char "0" k) (NilEmpty.string_of_uint d))
      with (Js.repeat_char "0" k +:+ NilEmpty.string_of_uint d).
    by rewrite IH.
Qed.

Lemma of_uint_zeros k d : Nat.of_uint (zeros k d) = Nat.of_uint d.
Proof. induction k as [|k IH]; simpl; [done|]. exact IH. Qed.

Lemma pad_inj n m :
  Js.padStart 3 "0" (Js.String_ n) = Js.padStart 3 "0" (Js.String_ m) → n = m.
Proof.
  unfold Js.padStart, Js.String_. intros H.
  apply (f_equal NilEmpty.uint_of_string) in H.
  rewrite !uint_of_repeat_zero in H. injection H as H.
  apply (f_equal Nat.of_uint) in H.
  by rewrite !of_uint_zeros, !Unsigned.of_to in H.
Qed.

(** Two numerals followed by an underscore agree when the texts do. *)
Lemma digits_underscore a : ∀ b x y,
  all_digits a = true → all_digits b = true →
  a +:+ "_" +:+ x = b +:+ "_" +:+ y → a = b.
Proof.
  induction a as [|c a IH]; intros [|d b] x y Ha Hb H; simpl in *.
  - done.
  - injection H as Hc _. subst d. apply andb_true_iff in Hb as [Hd _]. discriminate Hd.
  - injection H as Hc _. subst c. apply andb_true_iff in Ha as [Hd _]. discriminate Hd.
  - injection H as -> H.
    apply andb_true_iff in Ha as [_ Ha]. apply andb_true_iff in Hb as [_ Hb].
    f_equal. eauto.
Qed.

Lemma make_id_inj b n m s t : make_id b n s = make_id b m t → n = m.
Proof.
  unfold make_id. intros H. simpl in H. injection H as H.
  apply (inj (String.app b)) in H. simpl in H. injection H as H.
  apply pad_inj. eapply digits_underscore; [apply pad_digits..|exact H].
Qed.

(** ** Statistics *)

Lemma bump_sum key m : breakdown_sum (bump key m) = S (breakdown_sum m).
Proof.
  unfold breakdown_sum, bump.
  destruct (m !! key) as [n|] eqn:Hk.
  - rewrite <- (insert_delete_eq m key).
    rewrite map_fold_insert_L; [|intros; lia|apply lookup_delete_eq].
    rewrite (map_fold_delete_L _ _ key n m); [|intros; lia|done].
    destruct (n =? 0) eqn:Hn; [apply Nat.eqb_eq in Hn|]; lia.
  - rewrite map_fold_insert_L; [|intros; lia|done]. lia.
Qed.

Lemma count_cases_sum tcs : ∀ acc,
  breakdown_sum (fold_left count_case tcs acc).1 = breakdown_sum acc.1 + length tcs
  ∧ breakdown_sum (fold_left count_case tcs acc).2 = breakdown_sum acc.2 + length tcs.
Proof.
  induction tcs as [|tc tcs IH]; intros acc; simpl; [lia|].
  destruct (IH (count_case acc tc)) as [-> ->]. simpl.
  rewrite !bump_sum. lia.
Qed.

Lemma calculateStatistics_sums tcs rows :
  let s := calculateStatistics tcs rows in
  TotalTestCases s = length tcs
  ∧ breakdown_sum (TestCaseTypeBreakdown s) = length tcs
  ∧ breakdown_sum (SubtypeBreakdown s) = length tcs.
Proof.
  unfold calculateStatistics.
  pose proof (count_cases_sum tcs (∅, ∅)) as [H1 H2].
  destruct (fold_left count_case tcs (∅, ∅)) as [t s]. simpl in *.
  unfold breakdown_sum in *. rewrite map_fold_empty in H1, H2. auto.
Qed.

(** ** CSV export *)

Lemma includes_or field :
  Js.includes Js.COMMA field || Js.includes Js.DQUOTE field || Js.includes Js.LF field
  = needs_quotes field.
Proof.
  induction field as [|c r IH]; [done|]. cbn [Js.includes needs_quotes].
  rewrite <- IH.
  destruct (decide (c = Js.COMMA)) as [H1|H1];
    destruct (decide (c = Js.DQUOTE)) as [H2|H2];
    destruct (decide (c = Js.LF)) as [H3|H3];
    (rewrite bool_decide_eq_true_2 by tauto) || (rewrite bool_decide_eq_false_2 by tauto);
    cbn [orb]; rewrite ?orb_true_r; reflexivity.
Qed.

Lemma replaceAll_double field :
  Js.replaceAll Js.DQUOTE (String Js.DQUOTE (String Js.DQUOTE EmptyString)) field
  = double_quotes field.
Proof.
  induction field as [|c r IH]; [done|]. simpl.
  destruct (decide (c = Js.DQUOTE)); by rewrite IH.
Qed.

Lemma escapeCSV_spec field : escapeCSV field = spec_field field.
Proof.
  unfold escapeCSV, spec_field. rewrite includes_or, replaceAll_double.
  by destruct (needs_quotes field).
Qed.

Lemma join_cells tc : Js.join "," (csv_cells tc) = spec_row tc.
Proof. unfold csv_cells, spec_row. simpl. by rewrite !escapeCSV_spec. Qed.

Lemma append_empty s : s +:+ EmptyString = s.
Proof.
  induction s as [|c s IH]; [done|].
  change (String c (s +:+ EmptyString) = String c s). by rewrite IH.
Qed.

Lemma join_cons sep p q ps :
  Js.join sep (p :: q :: ps) = p +:+ sep +:+ Js.join sep (q :: ps).
Proof. reflexivity. Qed.

Lemma join_lines h tcs :
  Js.join Js.nl (h :: map (Js.join ",") (map csv_cells tcs)) = h +:+ spec_rows tcs.
Proof.
  revert h. induction tcs as [|tc tcs IH]; intros h.
  - simpl. by rewrite append_empty.
  - cbn [map spec_rows]. rewrite join_cons, IH, join_cells. done.
Qed.

(** ** The program logic *)

Section Logic.
Context {A B : Type}.

Lemma triple_ret (P : World → Prop) (a : A) Q E :
  (∀ w, P w → Q a w) → triple P (ret a) Q E.
Proof. intros H w Hw. by apply H. Qed.

Lemma triple_throw (P : World → Prop) e (Q : A → World → Prop) E :
  (∀ w, P w → E e w) → triple P (throw e) Q E.
Proof. intros H w Hw. by apply H. Qed.

Lemma triple_bind P (c : M A) (k : A → M B) Q1 Q E :
  triple P c Q1 E → (∀ a, triple (Q1 a) (k a) Q E) → triple P (bind c k) Q E.
Proof.
  intros Hc Hk w Hw. specialize (Hc w Hw). unfold bind.
  destruct (c w) as [[a|e] w']; [by apply Hk|done].
Qed.

Lemma triple_try P (c : M A) (h : Thrown → M A) Q E1 E :
  triple P c Q E1 → (∀ e, triple (E1 e) (h e) Q E) → triple P (try_catch c h) Q E.
Proof.
  intros Hc Hh w Hw. specialize (Hc w Hw). unfold try_catch.
  destruct (c w) as [[a|e] w']; [done|by apply Hh].
Qed.

Lemma triple_assume (φ : Prop) (P : World → Prop) (c : M A) Q E :
  (φ → triple P c Q E) → triple (λ w, φ ∧ P w) c Q E.
Proof. intros H w [Hφ Hw]. by apply H. Qed.
End Logic.

Lemma keeps_bind {A B} I (c : M A) (k : A → M B) :
  keeps I c → (∀ a, keeps I (k a)) → keeps I (bind c k).
Proof. intros Hc Hk. eapply triple_bind; [exact Hc|exact Hk]. Qed.

Lemma keeps_try {A} I (c : M A) h :
  keeps I c → (∀ e, keeps I (h e)) → keeps I (try_catch c h).
Proof. intros Hc Hh. eapply triple_try; [exact Hc|exact Hh]. Qed.

Lemma keeps_ret {A} I (a : A) : keeps I (ret a).
Proof. by apply triple_ret. Qed.

Lemma keeps_throw {A} I e : keeps I (throw (A:=A) e).
Proof. by apply triple_throw. Qed.

Lemma returns_bind {A B} (c : M A) (k : A → M B) :
  returns c → (∀ a, returns (k a)) → returns (bind c k).
Proof. intros Hc Hk. eapply triple_bind; [exact Hc|exact Hk]. Qed.

Lemma returns_catch {A} (c : M A) h : (∀ e, returns (h e)) → returns (try_catch c h).
Proof.
  intros Hh w _. unfold try_catch.
  destruct (c w) as [[a|e] w']; [done|by apply Hh].
Qed.

Lemma returns_ret {A} (a : A) : returns (ret a).
Proof. by apply triple_ret. Qed.

(** ** The store operations *)

Ltac unfold_ops :=
  unfold writeJobStatus, writeCSVContent, writeMetadata, writeResults, writeCSVOutput,
    readJobStatus, readResults, ensureJobDirectory, storage_read, storage_write, now,
    uuidv4, setImmediate, pure_step, get_store, put_store, try_catch, bind, ret, throw
    in *.

Ltac run_ops :=
  unfold_ops; simpl in *; repeat (case_match; simpl in *; simplify_eq); simpl in *.

Section Ops.
Variable env : Env.

Lemma readJobStatus_run jobId w :
  readJobStatus env jobId w
  = (Ret (match read_error env (readCount w) with
          | Some _ => None
          | None => statusFiles (store w) !! jobId
          end), tick_read w).
Proof. by run_ops. Qed.

Lemma readResults_run jobId w :
  readResults env jobId w
  = (Ret (match read_error env (readCount w) with
          | Some _ => None
          | None => resultsFiles (store w) !! jobId
          end), tick_read w).
Proof. by run_ops. Qed.

(** A status write returns normally, touches at most the status record of
    its job, and reports whether the record was written. *)
Lemma writeJobStatus_run jobId st err w :
  ∃ ok w', writeJobStatus env jobId st err w = (Ret ok, w')
    ∧ immediates w' = immediates w
    ∧ (if ok
       then ∃ s, store w' = set_statusFiles (<[jobId := s]> (statusFiles (store w))) (store w)
                 ∧ status s = st
                 ∧ error s = (match err with
                              | Some e => if Js.truthy e then Some e else None
                              | None => None
                              end)
                 ∧ clockCount w < clockCount w'
                 ∧ updated_at s = clock env (pred (clockCount w'))
                 ∧ created_at s
                   = match (readJobStatus env jobId (tick_write w)).1 with
                     | Ret (Some old) =>
                         if Js.truthy (created_at old) then created_at old
                         else clock env (clockCount w)
                     | _ => clock env (clockCount w)
                     end
       else store w' = store w).
Proof.
  destruct w as [s q rd wr p c u].
  rewrite readJobStatus_run.
  unfold_ops; simpl.
  destruct (write_error env wr); simpl; [by eexists _, _|].
  destruct (read_error env rd); simpl.
  - destruct (write_error env (S wr)); simpl; [by eexists _, _|].
    eexists true, _. repeat split; simpl. eexists. repeat split; simpl; lia.
  - destruct (statusFiles s !! jobId) as [e|]; simpl;
      [destruct (Js.truthy (created_at e)); simpl|];
      (destruct (write_error env (S wr)); simpl; [by eexists _, _|]);
      eexists true, _; repeat split; simpl; eexists; repeat split; simpl; lia.
Qed.

Lemma writeCSVContent_run jobId csv w :
  ∃ ok w', writeCSVContent env jobId csv w = (Ret ok, w')
    ∧ statusFiles (store w') = statusFiles (store w)
    ∧ immediates w' = immediates w.
Proof. destruct w. unfold_ops; simpl. repeat case_match; simplify_eq; by eexists _, _. Qed.

Lemma writeMetadata_run jobId p w :
  ∃ ok w', writeMetadata env jobId p w = (Ret ok, w')
    ∧ statusFiles (store w') = statusFiles (store w)
    ∧ immediates w' = immediates w.
Proof. destruct w. unfold_ops; simpl. repeat case_match; simplify_eq; by eexists _, _. Qed.

Lemma keeps_pure_step {A} I (v : A) : keeps I (pure_step env v).
Proof. intros w Hw. unfold pure_step. by destruct (runtime_error env (stepCount w)). Qed.

Lemma triple_pure_step {A} (I : Store → Prop) (v : A) :
  triple (λ w, I (store w)) (pure_step env v)
    (λ a w, a = v ∧ I (store w)) (λ _ w, I (store w)).
Proof. intros w Hw. unfold pure_step. by destruct (runtime_error env (stepCount w)). Qed.

Lemma keeps_now I : keeps I (now env).
Proof. by intros w Hw. Qed.

Lemma keeps_uuidv4 I : keeps I (uuidv4 env).
Proof. by intros w Hw. Qed.

Lemma keeps_setImmediate I t : keeps I (setImmediate t).
Proof. by intros w Hw. Qed.

Lemma keeps_readJobStatus I jobId : keeps I (readJobStatus env jobId).
Proof. intros w Hw. by rewrite readJobStatus_run. Qed.

Lemma keeps_readResults I jobId : keeps I (readResults env jobId).
Proof. intros w Hw. by rewrite readResults_run. Qed.

Lemma keeps_writeJobStatus (I : Store → Prop) jobId st err :
  (∀ s x, I s → I (set_statusFiles (<[jobId := x]> (statusFiles s)) s)) →
  keeps I (writeJobStatus env jobId st err).
Proof.
  intros HI w Hw.
  destruct (writeJobStatus_run jobId st err w) as (ok & w' & -> & _ & H).
  destruct ok; [destruct H as (s & -> & _)|rewrite H]; auto.
Qed.

Lemma keeps_writeCSVContent (I : Store → Prop) jobId csv :
  (∀ s, I s → I (set_inputFiles (<[jobId := csv]> (inputFiles s)) s)) →
  keeps I (writeCSVContent env jobId csv).
Proof. intros HI w Hw. run_ops; auto. Qed.

Lemma keeps_writeMetadata (I : Store → Prop) jobId p :
  (∀ s x, I s → I (set_metadataFiles (<[jobId := x]> (metadataFiles s)) s)) →
  keeps I (writeMetadata env jobId p).
Proof. intros HI w Hw. run_ops; auto. Qed.

Lemma keeps_writeResults (I : Store → Prop) jobId r :
  (∀ s, I s → I (set_resultsFiles (<[jobId := r]> (resultsFiles s)) s)) →
  keeps I (writeResults env jobId r).
Proof. intros HI w Hw. run_ops; auto. Qed.

Lemma keeps_writeCSVOutput (I : Store → Prop) jobId csv :
  (∀ s, I s → I (set_outputFiles (<[jobId := csv]> (outputFiles s)) s)) →
  keeps I (writeCSVOutput env jobId csv).
Proof. intros HI w Hw. run_ops; auto. Qed.

Lemma returns_writeJobStatus jobId st err : returns (writeJobStatus env jobId st err).
Proof.
  intros w _. by destruct (writeJobStatus_run jobId st err w) as (ok & w' & -> & _).
Qed.

Lemma returns_writeCSVContent jobId csv : returns (writeCSVContent env jobId csv).
Proof. intros w _. by run_ops. Qed.

Lemma returns_writeMetadata jobId p : returns (writeMetadata env jobId p).
Proof. intros w _. by run_ops. Qed.

Lemma returns_writeResults jobId r : returns (writeResults env jobId r).
Proof. intros w _. by run_ops. Qed.

Lemma returns_writeCSVOutput jobId csv : returns (writeCSVOutput env jobId csv).
Proof. intros w _. by run_ops. Qed.

Lemma returns_pure_step {A} (v : A) :
  (∀ n, runtime_error env n = None) → returns (pure_step env v).
Proof. intros Hrt w _. unfold pure_step. by rewrite Hrt. Qed.

(** One status write, in any environment. *)
Lemma writeJobStatus_frame jobId st err w ok w' :
  writeJobStatus env jobId st err w = (Ret ok, w') →
  other_artifacts (store w') = other_artifacts (store w)
  ∧ (∀ j, j ≠ jobId → statusFiles (store w') !! j = statusFiles (store w) !! j)
  ∧ (ok = false → store w' = store w)
  ∧ (ok = true →
     ∃ s', statusFiles (store w') !! jobId = Some s'
       ∧ status s' = st
       ∧ clockCount w < clockCount w'
       ∧ updated_at s' = clock env (pred (clockCount w'))
       ∧ created_at s'
         = match (readJobStatus env jobId (tick_write w)).1 with
           | Ret (Some old) =>
               if Js.truthy (created_at old) then created_at old
               else clock env (clockCount w)
           | _ => clock env (clockCount w)
           end).
Proof.
  intros Hrun.
  destruct (writeJobStatus_run jobId st err w) as (ok' & w'' & Hrun' & _ & H).
  rewrite Hrun in Hrun'. simplify_eq. destruct ok'.
  - destruct H as (s & -> & Hst & _ & Hlt & Hup & Hcr). simpl.
    repeat split; try done.
    + intros j Hj. by rewrite lookup_insert_ne.
    + intros _. exists s. by rewrite lookup_insert_eq.
  - rewrite H. repeat split; try done.
Qed.

Lemma truthy_nonempty s : s ≠ EmptyString → Js.truthy s = true.
Proof. by destruct s. Qed.

(** A status write that can read the store keeps the creation time of the
    record it finds, whether or not it manages to write. *)
Lemma writeJobStatus_created_at jobId st err w s :
  (∀ n, read_error env n = None) →
  statusFiles (store w) !! jobId = Some s → created_at s ≠ EmptyString →
  ∃ s', statusFiles (store (writeJobStatus env jobId st err w).2) !! jobId = Some s'
    ∧ created_at s' = created_at s.
Proof.
  intros Hrd Hs Hne.
  destruct (writeJobStatus env jobId st err w) as [out w'] eqn:Hrun.
  destruct (writeJobStatus_run jobId st err w) as (ok & w'' & Hrun' & _ & _).
  rewrite Hrun in Hrun'. simplify_eq.
  destruct (writeJobStatus_frame _ _ _ _ _ _ Hrun) as (_ & _ & Hfalse & Htrue).
  destruct ok.
  - destruct (Htrue eq_refl) as (s' & Hs' & _ & _ & _ & Hcr).
    exists s'. split; [done|]. rewrite Hcr, readJobStatus_run, Hrd. simpl.
    by rewrite Hs, truthy_nonempty.
  - exists s. simpl. by rewrite (Hfalse eq_refl).
Qed.

Lemma status_writes_created_at jobId writes : ∀ w s,
  (∀ n, read_error env n = None) →
  statusFiles (store w) !! jobId = Some s → created_at s ≠ EmptyString →
  ∃ s', statusFiles (store (status_writes env jobId writes w).2) !! jobId = Some s'
    ∧ created_at s' = created_at s.
Proof.
  induction writes as [|[st err] rest IH]; intros w s Hrd Hs Hne.
  - by exists s.
  - cbn [status_writes]. unfold bind.
    destruct (writeJobStatus_created_at jobId st err w s Hrd Hs Hne) as (s' & Hs' & Hc).
    destruct (writeJobStatus_run jobId st err w) as (ok & w' & Hrun & _).
    rewrite Hrun in Hs' |- *. simpl in Hs'.
    destruct (IH w' s' Hrd Hs') as (s'' & H1 & H2); [congruence|].
    exists s''. split; [done|congruence].
Qed.

(** What a status write without storage errors stores. *)
Lemma writeJobStatus_no_fault jobId st err w :
  (∀ n, read_error env n = None) → (∀ n, write_error env n = None) →
  ∃ w' s', writeJobStatus env jobId st err w = (Ret true, w')
    ∧ statusFiles (store w') !! jobId = Some s'
    ∧ status s' = st.
Proof.
  intros Hrd Hwr. destruct w as [s q rd wr p c u].
  unfold_ops; simpl. rewrite !Hwr, !Hrd. simpl.
  destruct (statusFiles s !! jobId) as [e|]; simpl;
    [destruct (Js.truthy (created_at e)); simpl|];
    rewrite !Hwr; simpl; eexists _, _; (split; [reflexivity|]); simpl;
    rewrite lookup_insert_eq; done.
Qed.

Lemma writeResults_no_fault jobId r w :
  (∀ n, write_error env n = None) →
  ∃ w', writeResults env jobId r w = (Ret true, w')
    ∧ store w' = set_resultsFiles (<[jobId := r]> (resultsFiles (store w))) (store w).
Proof. intros Hwr. destruct w. unfold_ops; simpl. rewrite !Hwr. simpl. by eexists. Qed.

Lemma writeCSVOutput_no_fault jobId csv w :
  (∀ n, write_error env n = None) →
  ∃ w', writeCSVOutput env jobId csv w = (Ret true, w')
    ∧ store w' = set_outputFiles (<[jobId := csv]> (outputFiles (store w))) (store w).
Proof. intros Hwr. destruct w. unfold_ops; simpl. rewrite !Hwr. simpl. by eexists. Qed.
End Ops.

(** ** The orchestrator and the routes *)

Section Orchestrator.
Variable env : Env.

Lemma results_ok_insert s jobId r :
  stats_consistent r → results_ok s →
  results_ok (set_resultsFiles (<[jobId := r]> (resultsFiles s)) s).
Proof.
  intros Hr Hs id x. simpl. rewrite lookup_insert.
  case_decide; [by intros [= <-]|apply Hs].
Qed.

Lemma response_consistent tcs rows g t :
  stats_consistent
    {| TestCases := tcs; StatisticalSummary_ := calculateStatistics tcs rows;
       response_github_url := g; generated_at := t |}.
Proof.
  unfold stats_consistent. cbn [StatisticalSummary_ TestCases].
  destruct (calculateStatistics_sums tcs rows) as (H1 & H2 & H3).
  rewrite H1. auto.
Qed.

Lemma keeps_results_ok_writeJobStatus jobId st err :
  keeps results_ok (writeJobStatus env jobId st err).
Proof. by apply keeps_writeJobStatus. Qed.

Lemma background_steps_results_ok jobId request :
  keeps results_ok (background_steps env jobId request).
Proof.
  unfold background_steps.
  apply keeps_bind; [apply keeps_results_ok_writeJobStatus|intros _].
  apply keeps_bind; [apply keeps_pure_step|intros csvRows].
  apply keeps_bind; [apply keeps_pure_step|intros tcs].
  eapply triple_bind; [apply triple_pure_step|intros summary].
  apply triple_assume; intros ->.
  apply keeps_bind; [apply keeps_now|intros t].
  apply keeps_bind.
  { apply keeps_writeResults. intros s. apply results_ok_insert, response_consistent. }
  intros _.
  apply keeps_bind; [apply keeps_pure_step|intros csvOutput].
  apply keeps_bind; [by apply keeps_writeCSVOutput|intros _].
  apply keeps_bind; [apply keeps_results_ok_writeJobStatus|intros _].
  apply keeps_ret.
Qed.

Lemma backgroundTask_results_ok jobId request :
  keeps results_ok (backgroundTask env jobId request).
Proof.
  apply keeps_try; [apply background_steps_results_ok|intros e].
  apply keeps_bind; [apply keeps_results_ok_writeJobStatus|intros _; apply keeps_ret].
Qed.

Lemma generateTestCases_results_ok request :
  keeps results_ok (generateTestCases env request).
Proof.
  unfold generateTestCases.
  apply keeps_bind; [apply keeps_uuidv4|intros jobId].
  apply keeps_try.
  - apply keeps_bind; [apply keeps_results_ok_writeJobStatus|intros _].
    apply keeps_bind; [by apply keeps_writeCSVContent|intros _].
    apply keeps_bind; [by apply keeps_writeMetadata|intros _].
    apply keeps_bind; [apply keeps_setImmediate|intros _; apply keeps_ret].
  - intros e.
    apply keeps_bind; [apply keeps_results_ok_writeJobStatus|intros _; apply keeps_throw].
Qed.

Lemma submit_keeps (I : Store → Prop) body :
  (∀ request, keeps I (generateTestCases env request)) → keeps I (submit env body).
Proof.
  intros Hgen. unfold submit, schema_parse, await_fetch.
  apply keeps_try.
  - apply keeps_bind.
    { destruct (schema_check body); [apply keeps_ret|apply keeps_throw]. }
    intros v.
    apply keeps_bind.
    { destruct (v_github_url v) as [url|]; [|apply keeps_ret].
      destruct (Js.truthy url); [|apply keeps_ret].
      apply keeps_bind.
      { destruct (fetchCSVFromGitHub env url); [apply keeps_throw|apply keeps_ret]. }
      intros r. case_match; [|apply keeps_ret].
      apply keeps_bind; [apply keeps_now|intros t; apply keeps_ret]. }
    intros [early|csv]; [apply keeps_ret|].
    case_match.
    + apply keeps_bind; [apply keeps_now|intros t; apply keeps_ret].
    + apply keeps_bind; [apply Hgen|intros jobId; apply keeps_ret].
  - intros e. apply keeps_bind; [apply keeps_now|intros t; apply keeps_ret].
Qed.

Lemma poll_status_keeps (I : Store → Prop) jobId : keeps I (poll_status env jobId).
Proof.
  unfold poll_status. apply keeps_try; [|intros e; apply keeps_ret].
  apply keeps_bind; [apply keeps_readJobStatus|intros [s|]; apply keeps_ret].
Qed.

Lemma results_keeps (I : Store → Prop) jobId : keeps I (results env jobId).
Proof.
  unfold results. apply keeps_try; [|intros e; apply keeps_ret].
  apply keeps_bind; [apply keeps_readJobStatus|intros [s|]; [|apply keeps_ret]].
  case_match; [apply keeps_ret|].
  apply keeps_bind; [apply keeps_readResults|intros [r|]; apply keeps_ret].
Qed.

Lemma step_results_ok w w' : step env w w' → results_ok (store w) → results_ok (store w').
Proof.
  intros [r w0 out w1 H|w0 out w1 H] Hok.
  - assert (Hk : keeps results_ok (handle env r)).
    { destruct r; [apply submit_keeps, generateTestCases_results_ok
                  |apply poll_status_keeps|apply results_keeps]. }
    specialize (Hk w0 Hok). rewrite H in Hk. by destruct out.
  - unfold run_immediate in H. destruct (immediates w0) as [|t q]; [by simplify_eq|].
    pose proof (backgroundTask_results_ok (task_jobId t) (task_request t)
                  (set_immediates q w0) Hok) as Hk.
    rewrite H in Hk. by destruct out.
Qed.

(** The synchronous part of a submission. *)
Lemma generateTestCases_run request w :
  let jobId := uuid env (uuidCount w) in
  ∃ ok w1 w',
    writeJobStatus env jobId pending None (tick_uuid w) = (Ret ok, w1)
    ∧ generateTestCases env request w = (Ret jobId, w')
    ∧ statusFiles (store w') = statusFiles (store w1)
    ∧ immediates w' = immediates w ++ [mkTask jobId request].
Proof.
  cbn zeta. set (jobId := uuid env (uuidCount w)).
  destruct (writeJobStatus_run env jobId pending None (tick_uuid w))
    as (ok & w1 & Hrun & Himm & _).
  destruct (writeCSVContent_run env jobId (csv_mapping request) w1)
    as (ok2 & w2 & Hrun2 & Hst2 & Himm2).
  destruct (writeMetadata_run env jobId
              {| meta_batch_number := Some (batch_number request);
                 meta_user_id := Some (user_id request);
                 meta_csv_length := Some (Js.length (csv_mapping request));
                 meta_github_url := github_url request;
                 meta_session_id := session_id request;
                 meta_batch_size := batch_size request |} w2)
    as (ok3 & w3 & Hrun3 & Hst3 & Himm3).
  exists ok, w1. eexists. split; [done|].
  unfold generateTestCases, uuidv4. unfold bind at 1. unfold try_catch.
  unfold bind at 1. fold jobId. rewrite Hrun.
  unfold bind at 1. rewrite Hrun2.
  unfold bind at 1. rewrite Hrun3.
  unfold bind, setImmediate, ret. simpl.
  split; [reflexivity|]. simpl. split; [congruence|].
  simpl in Himm. by rewrite Himm3, Himm2, Himm.
Qed.

(** A submission that starts a job ran [generateTestCases] in its world. *)
Lemma submit_started body w jobId m su ru w' :
  submit env body w = (Ret (JobStarted jobId m su ru), w') →
  ∃ request, generateTestCases env request w = (Ret jobId, w').
Proof.
  unfold submit, schema_parse, await_fetch, try_catch, bind, ret, throw, now.
  destruct (schema_check body) as [v|]; [|intros [=]].
  assert (Hgen : ∀ request,
    match
      match generateTestCases env request w with
      | (Ret a, w1) =>
          (Ret (JobStarted a "Test case generation started"
                  ("/api/status/" +:+ a) ("/api/results/" +:+ a)), w1)
      | (Throw e, w1) => (Throw e, w1)
      end
    with
    | (Ret a, w1) => (Ret a, w1)
    | (Throw e, w1) => (Ret (StartFailed (message_of e) (clock env (clockCount w1))),
                        tick_clock w1)
    end = (Ret (JobStarted jobId m su ru), w') →
    ∃ request, generateTestCases env request w = (Ret jobId, w')).
  { intros request H. exists request.
    destruct (generateTestCases env request w) as [[j|e] w'']; by simplify_eq. }
  destruct (v_github_url v) as [url|]; simpl.
  - destruct (Js.truthy url); simpl.
    + destruct (fetchCSVFromGitHub env url) as [e|r]; [intros [=]|]. simpl.
      destruct (negb (success r) || negb (Js.truthy (Js.or_default (content r) EmptyString)));
        simpl; [intros [=]|].
      destruct (Js.truthy (Js.or_default (content r) EmptyString)); simpl; [|intros [=]].
      apply Hgen.
    + destruct (Js.truthy (Js.or_default (v_csv_mapping v) EmptyString)); simpl; [|intros [=]].
      apply Hgen.
  - destruct (Js.truthy (Js.or_default (v_csv_mapping v) EmptyString)); simpl; [|intros [=]].
    apply Hgen.
Qed.

Lemma backgroundTask_returns jobId request w :
  ∃ w', backgroundTask env jobId request w = (Ret tt, w').
Proof.
  assert (H : returns (backgroundTask env jobId request)).
  { apply returns_catch. intros e. apply returns_bind.
    - apply returns_writeJobStatus.
    - intros _. apply returns_ret. }
  specialize (H w I). destruct (backgroundTask env jobId request w) as [[[]|e] w']; [|done].
  by exists w'.
Qed.

(** Storage errors alone never make the steps throw. *)
Lemma background_steps_returns jobId request w :
  (∀ n, runtime_error env n = None) →
  ∃ w1, background_steps env jobId request w = (Ret tt, w1).
Proof.
  intros Hrt.
  assert (H : returns (background_steps env jobId request)).
  { unfold background_steps.
    apply returns_bind; [apply returns_writeJobStatus|intros _].
    apply returns_bind; [by apply returns_pure_step|intros csvRows].
    apply returns_bind; [by apply returns_pure_step|intros tcs].
    apply returns_bind; [by apply returns_pure_step|intros summary].
    apply returns_bind; [by intros ? _|intros t].
    apply returns_bind; [apply returns_writeResults|intros _].
    apply returns_bind; [by apply returns_pure_step|intros csvOutput].
    apply returns_bind; [apply returns_writeCSVOutput|intros _].
    apply returns_bind; [apply returns_writeJobStatus|intros _].
    apply returns_ret. }
  specialize (H w I). destruct (background_steps env jobId request w) as [[[]|e] w']; [|done].
  by exists w'.
Qed.

(** A job that meets no error is completed, with its results and CSV. *)
Lemma backgroundTask_no_fault jobId request w :
  (∀ n, read_error env n = None) → (∀ n, write_error env n = None) →
  (∀ n, runtime_error env n = None) →
  let rows := parseCSV (csv_mapping request) in
  let tcs := generateTestCasesFromCSV rows (batch_number request) in
  let w' := (backgroundTask env jobId request w).2 in
  ∃ s r,
    statusFiles (store w') !! jobId = Some s ∧ status s = completed
    ∧ resultsFiles (store w') !! jobId = Some r
    ∧ TestCases r = tcs ∧ StatisticalSummary_ r = calculateStatistics tcs rows
    ∧ outputFiles (store w') !! jobId = Some (generateCSV tcs).
Proof.
  intros Hrd Hwr Hrt. cbn zeta.
  set (tcs := generateTestCasesFromCSV (parseCSV (csv_mapping request))
                (batch_number request)).
  destruct (writeJobStatus_no_fault env jobId processing None w Hrd Hwr)
    as (w1 & s1 & Hrun1 & _).
  set (w2 := tick_clock (tick_step (tick_step (tick_step w1)))).
  set (r := {| TestCases := tcs;
               StatisticalSummary_ :=
                 calculateStatistics tcs (parseCSV (csv_mapping request));
               response_github_url := github_url request;
               generated_at := clock env (clockCount (tick_step (tick_step (tick_step w1))))
            |}).
  destruct (writeResults_no_fault env jobId r w2 Hwr) as (w3 & Hrun3 & Hst3).
  destruct (writeCSVOutput_no_fault env jobId (generateCSV tcs) (tick_step w3) Hwr)
    as (w4 & Hrun4 & Hst4).
  destruct (writeJobStatus_no_fault env jobId completed None w4 Hrd Hwr)
    as (w5 & s5 & Hrun5 & Hs5 & Hc5).
  assert (Hbg : backgroundTask env jobId request w = (Ret tt, w5)).
  { unfold backgroundTask, try_catch, background_steps.
    unfold bind at 1. rewrite Hrun1.
    unfold bind at 1. unfold pure_step at 1. rewrite Hrt.
    unfold bind at 1. unfold pure_step at 1. rewrite Hrt.
    unfold bind at 1. unfold pure_step at 1. rewrite Hrt.
    unfold bind at 1. unfold now at 1.
    unfold bind at 1. fold tcs. fold r. fold w2. rewrite Hrun3.
    unfold bind at 1. unfold pure_step at 1. rewrite Hrt.
    unfold bind at 1. rewrite Hrun4.
    unfold bind, ret. by rewrite Hrun5. }
  rewrite Hbg. simpl.
  destruct (writeJobStatus_frame env _ _ _ _ _ _ Hrun5) as (Hother & _).
  assert (Hre : resultsFiles (store w5) = resultsFiles (store w4))
    by (by injection Hother).
  assert (Hou : outputFiles (store w5) = outputFiles (store w4))
    by (by injection Hother).
  exists s5, r. split; [done|]. split; [done|].
  rewrite Hre, Hou, Hst4. simpl. rewrite Hst3. simpl.
  by rewrite !lookup_insert_eq.
Qed.
End Orchestrator.

Lemma sample_clock_nonempty n : sample_clock n ≠ EmptyString.
Proof. discriminate. Qed.

Lemma finished_world_reachable : reachable quiet_env finished_world.
Proof.
  eapply reachable_step; [eapply reachable_step; [apply (reachable_init _ 0 0 0 0 0)|]|].
  - apply (step_request _ (PostSubmit scenario_body) fresh_world
             (submit quiet_env scenario_body fresh_world).1 submitted_world).
    unfold submitted_world. simpl. by destruct (submit quiet_env scenario_body fresh_world).
  - apply (step_background _ submitted_world
             (run_immediate quiet_env submitted_world).1 finished_world).
    unfold finished_world. by destruct (run_immediate quiet_env submitted_world).
Defined.

(** * The claims of the specification *)

(** ** C1: the status right after a submission *)

(** C1 (code defect).  Failing input: the scenario is submitted while the
    save of [status.json] fails (the second write access; the first one is
    [mkdir]).  [writeJobStatus] catches the error and returns [false],
    [generateTestCases] does not look at the result, although its own
    [catch] block is there to mark the job failed and to make the route
    answer 500, and the route answers 200 with the job id.  A poll served
    before the background task starts finds no job; once the task has
    written its first status the record says processing, and after the task
    it says completed: no poll reports pending.  So the claim, as the
    specification states it, fails there. *)
Theorem submit_with_failed_write :
  let env := write_fault_env 1 in
  let w1 := (submit env scenario_body fresh_world).2 in
  (submit env scenario_body fresh_world).1
  = Ret (JobStarted "job-0" "Test case generation started"
           "/api/status/job-0" "/api/results/job-0")
  ∧ statusFiles (store w1) !! "job-0" = None
  ∧ (poll_status env "job-0" w1).1 = Ret (JobNotFound "job-0")
  ∧ (∃ s, (poll_status env "job-0"
             (writeJobStatus env "job-0" processing None (set_immediates [] w1)).2).1
          = Ret (StatusReport s)
          ∧ status s = processing)
  ∧ (∃ s, (poll_status env "job-0" (run_immediate env w1).2).1 = Ret (StatusReport s)
          ∧ status s = completed)
  ∧ ¬ poll_after_submit_pending env scenario_body fresh_world.
Proof.
  cbn zeta. split; [vm_compute; reflexivity|]. split; [vm_compute; reflexivity|].
  split; [vm_compute; reflexivity|].
  split; [vm_compute; eexists; split; reflexivity|].
  split; [vm_compute; eexists; split; reflexivity|].
  intros H.
  destruct (H "job-0" _ _ _ _ ltac:(vm_compute; reflexivity)) as (s & Hs & _).
  vm_compute in Hs. discriminate Hs.
Qed.

(** ** C2: failures of the background task *)

(** C2 (code defect).  Failing input: the background task of the scenario
    runs while the save of [results.json] fails (the fourth write access of
    the task).  The exception is caught inside [writeResults], which returns
    [false]; the task does not look at the result, although its own [catch]
    block is there to mark the job failed, goes on and marks the job
    completed.  The job ends completed, without error and without results,
    and the results route then answers 500 for it.  So the claim, as the
    specification states it, fails there. *)
Theorem background_with_failed_results_write :
  let env := write_fault_env 3 in
  let w' := (backgroundTask env "job-0" scenario_request fresh_world).2 in
  status <$> statusFiles (store w') !! "job-0" = Some completed
  ∧ (statusFiles (store w') !! "job-0" ≫= error) = None
  ∧ resultsFiles (store w') !! "job-0" = None
  ∧ (results env "job-0" w').1 = Ret (ResultsUnreadable "job-0")
  ∧ ¬ failure_recorded env "job-0" scenario_request fresh_world.
Proof.
  cbn zeta. do 4 (split; [vm_compute; reflexivity|]).
  intros H.
  destruct (H 3 (JsError "EIO: i/o error")) as (s & Hs & Hst & _).
  { right. left. split; [vm_compute; lia|reflexivity]. }
  vm_compute in Hs. injection Hs as <-. discriminate Hst.
Qed.

(** ** C3: not found and not ready *)


(** ** C4: submissions that fail validation *)

(** C4: a submission that fails validation is answered with an error; no
    job id is drawn, no background task is queued, and the store is neither
    written nor accessed. *)
Theorem invalid_submission_rejected (env : Env) (body : option Body) (w : World) :
  fails_validation env body →
  ∃ resp w', submit env body w = (Ret resp, w')
    ∧ 400 ≤ http_status resp
    ∧ store w' = store w
    ∧ immediates w' = immediates w
    ∧ uuidCount w' = uuidCount w
    ∧ writeCount w' = writeCount w
    ∧ readCount w' = readCount w.
Proof.
  intros Hfail. unfold fails_validation in Hfail.
  unfold submit, schema_parse, await_fetch, try_catch, bind, ret, throw, now.
  destruct (schema_check body) as [v|]; [|eexists _, _; repeat split; simpl; lia].
  specialize (Hfail v eq_refl).
  destruct (v_github_url v) as [[|c u]|]; simpl.
  - destruct Hfail as [-> | ->]; simpl; eexists _, _; repeat split; simpl; lia.
  - unfold fetch_failed in Hfail.
    destruct (fetchCSVFromGitHub env (String c u)) as [e|r];
      [eexists _, _; repeat split; simpl; lia|].
    destruct Hfail as [-> | [-> | ->]]; simpl; rewrite ?orb_true_r; simpl;
      eexists _, _; repeat split; simpl; lia.
  - destruct Hfail as [-> | ->]; simpl; eexists _, _; repeat split; simpl; lia.
Qed.

Lemma invalid_submission_witness :
  ∃ resp w', submit quiet_env empty_body fresh_world = (Ret resp, w')
    ∧ 400 ≤ http_status resp ∧ store w' = empty_store ∧ immediates w' = [].
Proof.
  destruct (invalid_submission_rejected quiet_env empty_body fresh_world)
    as (resp & w' & H1 & H2 & H3 & H4 & _).
  { intros v [= <-]. by left. }
  by exists resp, w'.
Defined.

(** ** C5: statistics of persisted results *)

(** C5: in every state the server can reach, every persisted job result has
    consistent statistics: the total is the number of test cases, and the
    counts of the type breakdown, and those of the subtype breakdown, add up
    to the total. *)
Theorem persisted_statistics (env : Env) (w : World) :
  reachable env w →
  ∀ jobId r, resultsFiles (store w) !! jobId = Some r →
    TotalTestCases (StatisticalSummary_ r) = length (TestCases r)
    ∧ breakdown_sum (TestCaseTypeBreakdown (StatisticalSummary_ r))
      = TotalTestCases (StatisticalSummary_ r)
    ∧ breakdown_sum (SubtypeBreakdown (StatisticalSummary_ r))
      = TotalTestCases (StatisticalSummary_ r).
Proof.
  intros Hreach. change (results_ok (store w)).
  induction Hreach as [rd wr st ck uu|w w' _ IH Hstep].
  - intros id r H. simpl in H. by rewrite lookup_empty in H.
  - by eapply step_results_ok.
Qed.

Lemma persisted_statistics_witness :
  ∃ r, resultsFiles (store finished_world) !! "job-0" = Some r
    ∧ TotalTestCases (StatisticalSummary_ r) = 3
    ∧ breakdown_sum (TestCaseTypeBreakdown (StatisticalSummary_ r)) = 3
    ∧ breakdown_sum (SubtypeBreakdown (StatisticalSummary_ r)) = 3.
Proof.
  destruct (resultsFiles (store finished_world) !! "job-0") as [r|] eqn:Hr;
    [|vm_compute in Hr; discriminate Hr].
  exists r. split; [done|].
  destruct (persisted_statistics quiet_env finished_world finished_world_reachable
              "job-0" r Hr) as (H1 & H2 & H3).
  assert (Hlen : length (TestCases r) = 3).
  { vm_compute in Hr. injection Hr as <-. reflexivity. }
  rewrite H2, H3, H1. auto.
Defined.

(** ** C6: test-case identifiers *)

(** C6 (amended): every identifier is
    [B_{batch_number}_TC_{sequence:03d}_{suffix}], where the sequence number
    is the 1-based position of the test case in the job; for FUNCTIONAL and
    REGRESSION cases the suffix is the lower-case [type_subtype], for EDGE
    cases it is [edge_case]; the identifiers of a job are pairwise
    distinct. *)
Theorem test_case_ids (rows : list CSVRow) (batchNumber : string) :
  let out := generateTestCasesFromCSV rows batchNumber in
  (∀ k tc, out !! k = Some tc →
     (TestCaseType tc ≠ "EDGE" → TestCaseID tc = spec_id batchNumber (k + 1) tc)
     ∧ (TestCaseType tc = "EDGE" →
        TestCaseID tc
        = "B_" +:+ batchNumber +:+ "_TC_" +:+ Js.padStart 3 "0" (Js.String_ (k + 1))
            +:+ "_edge_case"))
  ∧ NoDup (TestCaseID <$> out).
Proof.
  cbn zeta. rewrite generate_blocks.
  assert (Hid : ∀ k tc, blocks batchNumber 0 rows !! k = Some tc →
                        TestCaseID tc = make_id batchNumber (k + 1) (id_suffix tc)).
  { intros k tc H. apply blocks_ids in H. rewrite H. f_equal.
    change (row_offset 0) with 0. lia. }
  split.
  - intros k tc H. rewrite (Hid k tc H). unfold id_suffix.
    split; intros Hty; [by rewrite decide_False|by rewrite decide_True].
  - apply NoDup_alt. intros i j x Hi Hj.
    apply list_lookup_fmap_Some in Hi as (tci & -> & Hi).
    apply list_lookup_fmap_Some in Hj as (tcj & Heq & Hj).
    rewrite (Hid _ _ Hi), (Hid _ _ Hj) in Heq.
    apply make_id_inj in Heq. lia.
Qed.

Lemma test_case_ids_witness :
  ∃ fp e,
    generateTestCasesFromCSV [scenario_row] "001" !! 0 = Some fp
    ∧ TestCaseID fp = "B_001_TC_001_functional_positive"
    ∧ generateTestCasesFromCSV [scenario_row] "001" !! 2 = Some e
    ∧ TestCaseID e = "B_001_TC_003_edge_case".
Proof.
  destruct (generateTestCasesFromCSV [scenario_row] "001" !! 0) as [fp|] eqn:Hfp;
    [|vm_compute in Hfp; discriminate Hfp].
  destruct (generateTestCasesFromCSV [scenario_row] "001" !! 2) as [e|] eqn:He;
    [|vm_compute in He; discriminate He].
  exists fp, e.
  destruct (test_case_ids [scenario_row] "001") as [Hids _].
  destruct (Hids 0 fp Hfp) as [H0 _]. destruct (Hids 2 e He) as [_ H2].
  repeat split; try done.
  - rewrite H0; vm_compute in Hfp; injection Hfp as <-; [reflexivity|discriminate].
  - rewrite H2; vm_compute in He; injection He as <-; reflexivity.
Defined.

(** C6 (counterexample): for the scenario mapping, the third test case is an
    EDGE/NEGATIVE case named [B_001_TC_003_edge_case], not
    [B_001_TC_003_edge_negative]. *)
Lemma test_case_ids_counterexample :
  ¬ ids_as_specified (parseCSV scenario_csv) "001".
Proof.
  intros [H _].
  specialize (H 2 _ eq_refl). vm_compute in H. discriminate H.
Qed.

Example scenario_third_case :
  (λ tc, (TestCaseID tc, TestCaseType tc, Subtype tc))
    <$> generateTestCasesFromCSV (parseCSV scenario_csv) "001" !! 2
  = Some ("B_001_TC_003_edge_case", "EDGE", "NEGATIVE").
Proof. vm_compute. reflexivity. Qed.

Example scenario_parsed : parseCSV scenario_csv = [scenario_row].
Proof. vm_compute. reflexivity. Qed.

(** ** C7: the cases of a row *)

(** C7: for every parsed mapping row the generator produces a
    FUNCTIONAL/POSITIVE case, a FUNCTIONAL/NEGATIVE case and exactly one EDGE
    case, NEGATIVE when the row's Required flag is yes or true and POSITIVE
    otherwise. *)
Theorem cases_per_row (rows : list CSVRow) (batchNumber : string) (i : nat) (row : CSVRow) :
  rows !! i = Some row →
  ∃ fp fn e rest,
    row_cases (generateTestCasesFromCSV rows batchNumber) i = fp :: fn :: e :: rest
    ∧ has_kind "FUNCTIONAL" "POSITIVE" fp
    ∧ has_kind "FUNCTIONAL" "NEGATIVE" fn
    ∧ TestCaseType e = "EDGE"
    ∧ (required_flag row → Subtype e = "NEGATIVE")
    ∧ (¬ required_flag row → Subtype e = "POSITIVE")
    ∧ Forall (λ tc, TestCaseType tc ≠ "EDGE") rest.
Proof.
  intros Hi. rewrite generate_blocks, (row_cases_block _ _ _ _ Hi).
  destruct (row_block_kinds batchNumber i row (1 + row_offset i))
    as (fp & fn & e & rest & -> & Hfp & Hfn & [He1 He2] & Hrest).
  exists fp, fn, e, rest. repeat split; try apply Hfp; try apply Hfn; try done.
  - intros Hreq%isRequired_flag. by rewrite Hreq in He2.
  - intros Hreq. destruct (isRequired row) eqn:Hr; [|done].
    by apply isRequired_flag in Hr.
  - destruct ((i + 1) mod 3 =? 0).
    + destruct Hrest as (r & -> & [Hr _]). constructor; [|done]. by rewrite Hr.
    + by subst rest.
Qed.

Lemma cases_per_row_witness :
  ∃ fp fn e rest,
    row_cases (generateTestCasesFromCSV [scenario_row] "001") 0 = fp :: fn :: e :: rest
    ∧ has_kind "FUNCTIONAL" "POSITIVE" fp
    ∧ has_kind "FUNCTIONAL" "NEGATIVE" fn
    ∧ TestCaseType e = "EDGE"
    ∧ Subtype e = "NEGATIVE".
Proof.
  destruct (cases_per_row [scenario_row] "001" 0 scenario_row eq_refl)
    as (fp & fn & e & rest & H1 & H2 & H3 & H4 & H5 & _).
  exists fp, fn, e, rest. repeat split; try apply H2; try apply H3; try done.
  apply H5. exists "Yes". split; [vm_compute; reflexivity|by left].
Defined.

(** ** C8: timestamps of a status write *)

(** C8 (code defect).  Failing input: the record of a job was written with
    status pending, and the next status write (processing) runs while its
    read of [status.json] fails.  [writeJobStatus] reads the existing record
    to keep its [created_at]; [readJobStatus] catches the error and returns
    [null], the write takes the job for a new one, stamps a new [created_at]
    and replaces the record.  So the claim, as the specification states it,
    fails there. *)
Theorem status_write_after_failed_read :
  let env := read_fault_env 1 in
  let w1 := (writeJobStatus env "job-0" pending None fresh_world).2 in
  let w2 := (writeJobStatus env "job-0" processing None w1).2 in
  created_at <$> statusFiles (store w1) !! "job-0" = Some (sample_clock 0)
  ∧ status <$> statusFiles (store w2) !! "job-0" = Some processing
  ∧ created_at <$> statusFiles (store w2) !! "job-0" = Some (sample_clock 2)
  ∧ sample_clock 2 ≠ sample_clock 0
  ∧ ¬ created_at_kept env "job-0" [(processing, None)] w1.
Proof.
  cbn zeta. do 3 (split; [vm_compute; reflexivity|]). split; [discriminate|].
  intros H.
  destruct (H (mkStatusData pending (sample_clock 0) (sample_clock 1) None))
    as (s' & Hs' & Hc); [vm_compute; reflexivity|].
  vm_compute in Hs'. injection Hs' as <-. vm_compute in Hc. discriminate Hc.
Qed.

(** ** C9: the CSV artifact *)

(** C9: the CSV artifact is the header row followed by one row per test case,
    in order, each field quoted (wrapped in double quotes, inner double quotes
    doubled) exactly when it contains a comma, a double quote or a newline,
    and verbatim otherwise. *)
Theorem generateCSV_spec (tcs : list TestCase) : generateCSV tcs = spec_csv tcs.
Proof. unfold generateCSV, spec_csv. by rewrite join_lines. Qed.

(** ** C10: the number of test cases *)

(** C10: [n] mapping rows yield [3 * n + n / 3] test cases: three for every
    row and a fourth, REGRESSION/POSITIVE, for the rows whose 1-based index
    is a multiple of three; a CSV with only a header row yields a completed
    job with no test case. *)
Theorem generated_count :
  (∀ rows batchNumber,
     length (generateTestCasesFromCSV rows batchNumber)
     = 3 * length rows + length rows / 3)
  ∧ (∀ rows batchNumber i row,
       rows !! i = Some row →
       ∃ fp fn e extra,
         row_cases (generateTestCasesFromCSV rows batchNumber) i = fp :: fn :: e :: extra
         ∧ has_kind "FUNCTIONAL" "POSITIVE" fp
         ∧ has_kind "FUNCTIONAL" "NEGATIVE" fn
         ∧ TestCaseType e = "EDGE"
         ∧ (if (i + 1) mod 3 =? 0
            then ∃ r, extra = [r] ∧ has_kind "REGRESSION" "POSITIVE" r
            else extra = []))
  ∧ (∀ env jobId request w,
       (∀ n, read_error env n = None) → (∀ n, write_error env n = None) →
       (∀ n, runtime_error env n = None) →
       header_only (csv_mapping request) →
       let w' := (backgroundTask env jobId request w).2 in
       ∃ s r,
         statusFiles (store w') !! jobId = Some s ∧ status s = completed
         ∧ resultsFiles (store w') !! jobId = Some r
         ∧ TestCases r = [] ∧ TotalTestCases (StatisticalSummary_ r) = 0).
Proof.
  split; [intros; apply generated_length|]. split.
  - intros rows b i row Hi. rewrite generate_blocks, (row_cases_block _ _ _ _ Hi).
    destruct (row_block_kinds b i row (1 + row_offset i))
      as (fp & fn & e & rest & -> & Hfp & Hfn & [He _] & Hrest).
    by exists fp, fn, e, rest.
  - intros env jobId request w Hrd Hwr Hrt Hhead. cbn zeta.
    destruct (backgroundTask_no_fault env jobId request w Hrd Hwr Hrt)
      as (s & r & Hs & Hst & Hr & Htcs & Hsum & _).
    exists s, r. rewrite (parseCSV_header_only _ Hhead) in Htcs, Hsum.
    rewrite Htcs, Hsum. done.
Qed.

Lemma generated_count_witness :
  (∃ fp fn e r,
     row_cases (generateTestCasesFromCSV [scenario_row; scenario_row; scenario_row] "001") 2
     = [fp; fn; e; r] ∧ has_kind "REGRESSION" "POSITIVE" r)
  ∧ (let w' := (backgroundTask quiet_env "job-0" header_request fresh_world).2 in
     ∃ s r, statusFiles (store w') !! "job-0" = Some s ∧ status s = completed
       ∧ resultsFiles (store w') !! "job-0" = Some r ∧ TestCases r = []).
Proof.
  destruct generated_count as (_ & Hrow & Hjob). split.
  - destruct (Hrow [scenario_row; scenario_row; scenario_row] "001" 2 scenario_row eq_refl)
      as (fp & fn & e & extra & H1 & _ & _ & _ & r & -> & Hr).
    by exists fp, fn, e, r.
  - destruct (Hjob quiet_env "job-0" header_request fresh_world
                (λ _, eq_refl) (λ _, eq_refl) (λ _, eq_refl) eq_refl)
      as (s & r & H1 & H2 & H3 & H4 & _).
    by exists s, r.
Defined.

(** * Further properties *)

(** ** The CSV line parser *)

Lemma append_assoc_string a b c : (a +:+ b) +:+ c = a +:+ (b +:+ c).
Proof.
  induction a as [|x a IH]; [done|].
  change (String x ((a +:+ b) +:+ c) = String x (a +:+ (b +:+ c))). by rewrite IH.
Qed.

Lemma append_cons c s t : String c s +:+ t = String c (s +:+ t).
Proof. reflexivity. Qed.

Lemma append_snoc cur c v : (cur +:+ String c EmptyString) +:+ v = cur +:+ String c v.
Proof. by rewrite append_assoc_string. Qed.

(** Characters that are neither a quote nor a separator are appended to the
    field being read; inside quotes, separators are too. *)
Lemma parseCSVLine_loop_plain v : ∀ tail cur q res,
  Js.includes Js.DQUOTE v = false →
  q = true ∨ Js.includes Js.COMMA v = false →
  parseCSVLine_loop (v +:+ tail) cur q res = parseCSVLine_loop tail (cur +:+ v) q res.
Proof.
  induction v as [|c v IH]; intros tail cur q res Hq Hc.
  - by rewrite append_empty.
  - rewrite append_cons. cbn [parseCSVLine_loop Js.includes] in *.
    destruct (decide (c = Js.DQUOTE)) as [|Hne]; [done|].
    assert (bool_decide (c = Js.COMMA) && negb q = false) as ->.
    { destruct Hc as [->|Hc]; [apply andb_false_r|].
      destruct (decide (c = Js.COMMA)); [done|].
      by rewrite bool_decide_eq_false_2. }
    rewrite IH, ?append_snoc; [done|done|].
    destruct Hc as [?|Hc]; [by left|right].
    by destruct (decide (c = Js.COMMA)).
Qed.

(** Inside quotes, a doubled quote is read as one quote and the closing
    quote ends the quoted part. *)
Lemma parseCSVLine_loop_quoted v : ∀ tail cur res,
  unquoted_start tail →
  parseCSVLine_loop (double_quotes v +:+ String Js.DQUOTE tail) cur true res
  = parseCSVLine_loop tail (cur +:+ v) false res.
Proof.
  induction v as [|c v IH]; intros tail cur res Htail.
  - rewrite append_empty. cbn [double_quotes]. change (EmptyString +:+ ?x) with x.
    cbn [parseCSVLine_loop]. rewrite decide_True by done.
    destruct tail as [|n t]; [done|].
    by rewrite decide_False by exact Htail.
  - cbn [double_quotes]. destruct (decide (c = Js.DQUOTE)) as [->|Hne].
    + rewrite !append_cons. cbn [parseCSVLine_loop].
      rewrite !decide_True by done.
      by rewrite IH, append_snoc.
    + rewrite append_cons. cbn [parseCSVLine_loop].
      rewrite decide_False by done. rewrite andb_false_r.
      by rewrite IH, append_snoc.
Qed.

Lemma needs_quotes_false v :
  needs_quotes v = false →
  Js.includes Js.DQUOTE v = false ∧ Js.includes Js.COMMA v = false.
Proof.
  induction v as [|c v IH]; [done|]. cbn [needs_quotes Js.includes].
  intros [H1 H2]%orb_false_iff. apply bool_decide_eq_false in H1.
  destruct (IH H2) as [-> ->].
  rewrite !decide_False; [done|tauto|tauto].
Qed.

(** An exported field, read back up to the next separator. *)
Lemma parseCSVLine_loop_field v tail res :
  unquoted_start tail →
  parseCSVLine_loop (escapeCSV v +:+ tail) EmptyString false res
  = parseCSVLine_loop tail v false res.
Proof.
  intros Htail. rewrite escapeCSV_spec. unfold spec_field.
  destruct (needs_quotes v) eqn:Hq.
  - rewrite append_cons, append_assoc_string, append_cons.
    change (EmptyString +:+ tail) with tail.
    cbn [parseCSVLine_loop]. rewrite decide_True by done. cbn [negb].
    by rewrite parseCSVLine_loop_quoted.
  - destruct (needs_quotes_false v Hq) as [H1 H2].
    rewrite parseCSVLine_loop_plain by auto. done.
Qed.

Lemma parseCSVLine_loop_fields fields : ∀ field res,
  parseCSVLine_loop (Js.join "," (escapeCSV <$> field :: fields)) EmptyString false res
  = res ++ (Js.trim <$> field :: fields).
Proof.
  induction fields as [|g fields IH]; intros field res.
  - cbn [fmap list_fmap Js.join].
    rewrite <- (append_empty (escapeCSV field)).
    by rewrite parseCSVLine_loop_field.
  - change (escapeCSV <$> field :: g :: fields)
      with (escapeCSV field :: (escapeCSV <$> g :: fields)).
    cbn [fmap list_fmap] in *. rewrite join_cons.
    change ("," +:+ ?x) with (String Js.COMMA x).
    rewrite parseCSVLine_loop_field by done.
    cbn [parseCSVLine_loop]. rewrite decide_False by done.
    rewrite bool_decide_eq_true_2 by done. cbn [andb negb].
    rewrite IH, <- app_assoc. done.
Qed.

(** X1. A row of fields of 7-bit text written by the exporter ([escapeCSV]
    on each field, joined by commas) is read back by [parseCSVLine] as the
    same fields, trimmed: quoting protects commas, quotes and line feeds, but
    not leading or trailing white space. *)
Theorem export_then_parse_line (fields : list string) :
  fields ≠ [] →
  Forall (λ field, is_ascii_text field = true) fields →
  parseCSVLine (Js.join "," (escapeCSV <$> fields)) = Js.trim <$> fields.
Proof.
  destruct fields as [|field fields]; [done|intros _ _].
  unfold parseCSVLine. by rewrite parseCSVLine_loop_fields.
Qed.

Lemma export_then_parse_line_witness :
  parseCSVLine (Js.join "," (escapeCSV <$> ["a,b"; " c "; String Js.DQUOTE "d"]))
  = ["a,b"; "c"; String Js.DQUOTE "d"].
Proof.
  apply (export_then_parse_line ["a,b"; " c "; String Js.DQUOTE "d"]); [discriminate|].
  repeat constructor.
Defined.

Lemma split_nonempty sep s : Js.split sep s ≠ [].
Proof.
  induction s as [|c s IH]; [done|]. simpl.
  destruct (decide (c = sep)); [done|]. by destruct (Js.split sep s).
Qed.

(** Without quotes, the parser splits at the commas and trims. *)
Lemma parseCSVLine_loop_split line : ∀ cur res,
  Js.includes Js.DQUOTE line = false →
  parseCSVLine_loop line cur false res
  = res ++ match Js.split Js.COMMA line with
           | h :: t => Js.trim (cur +:+ h) :: (Js.trim <$> t)
           | [] => []
           end.
Proof.
  induction line as [|c line IH]; intros cur res Hq.
  - simpl. by rewrite append_empty.
  - cbn [parseCSVLine_loop Js.includes Js.split] in *.
    destruct (decide (c = Js.DQUOTE)) as [|Hne]; [done|].
    destruct (decide (c = Js.COMMA)) as [->|Hc].
    + rewrite bool_decide_eq_true_2 by done. cbn [andb negb].
      rewrite IH by done. rewrite append_empty, <- app_assoc.
      by destruct (Js.split Js.COMMA line).
    + rewrite bool_decide_eq_false_2 by done. cbn [andb].
      rewrite IH by done. pose proof (split_nonempty Js.COMMA line).
      destruct (Js.split Js.COMMA line); [done|by rewrite append_snoc].
Qed.

(** X2. On a line of 7-bit text without quote characters [parseCSVLine]
    is [line.split(',')] followed by [trim] on every part. *)
Theorem parseCSVLine_unquoted (line : string) :
  is_ascii_text line = true →
  Js.includes Js.DQUOTE line = false →
  parseCSVLine line = Js.trim <$> Js.split Js.COMMA line.
Proof.
  intros _ Hq. unfold parseCSVLine. rewrite parseCSVLine_loop_split by done.
  pose proof (split_nonempty Js.COMMA line).
  by destruct (Js.split Js.COMMA line).
Qed.

Lemma parseCSVLine_unquoted_witness :
  parseCSVLine "name , Patient,,Yes " = ["name"; "Patient"; EmptyString; "Yes"].
Proof. apply (parseCSVLine_unquoted "name , Patient,,Yes "); reflexivity. Defined.

(** ** Parsed rows *)

Lemma trimEnd_idemp s : Js.trimEnd (Js.trimEnd s) = Js.trimEnd s.
Proof.
  induction s as [|c s IH]; [done|]. cbn [Js.trimEnd].
  destruct (Js.trimEnd s) as [|a r] eqn:Hs.
  - destruct (Js.is_white c) eqn:Hc; [done|]. simpl. by rewrite Hc.
  - cbn [Js.trimEnd]. cbn [Js.trimEnd] in IH. by rewrite IH.
Qed.

Lemma trimStart_black s : starts_black (Js.trimStart s).
Proof. induction s as [|c s IH]; [done|]. simpl. by destruct (Js.is_white c) eqn:Hc. Qed.

Lemma trimStart_id s : starts_black s → Js.trimStart s = s.
Proof. destruct s as [|c s]; [done|]. simpl. by intros ->. Qed.

Lemma trimEnd_black s : starts_black s → starts_black (Js.trimEnd s).
Proof.
  destruct s as [|c s]; [done|]. cbn [Js.trimEnd starts_black]. intros Hc.
  destruct (Js.trimEnd s); by rewrite ?Hc.
Qed.

Lemma trim_idemp s : Js.trim (Js.trim s) = Js.trim s.
Proof.
  unfold Js.trim.
  rewrite (trimStart_id (Js.trimEnd _)) by apply trimEnd_black, trimStart_black.
  apply trimEnd_idemp.
Qed.

(** Every field read by the line parser is trimmed. *)
Lemma parseCSVLine_loop_trimmed n : ∀ line cur q res x,
  String.length line ≤ n →
  x ∈ parseCSVLine_loop line cur q res → x ∈ res ∨ Js.trim x = x.
Proof.
  assert (Hend : ∀ cur res x, x ∈ res ++ [Js.trim cur] → x ∈ res ∨ Js.trim x = x).
  { intros cur res x [?|Hx]%elem_of_app; [by left|right].
    apply list_elem_of_singleton in Hx as ->. apply trim_idemp. }
  induction n as [|n IH]; intros line cur q res x Hn.
  { destruct line; [apply Hend|simpl in Hn; lia]. }
  destruct line as [|c line]; [apply Hend|]. simpl in Hn.
  cbn [parseCSVLine_loop].
  destruct (decide (c = Js.DQUOTE)).
  - destruct q, line as [|next rest]; try (apply IH; simpl in *; lia).
    destruct (decide (next = Js.DQUOTE)); apply IH; simpl in *; lia.
  - destruct (bool_decide (c = Js.COMMA) && negb q).
    + intros [Hx|Hx]%IH; [eauto|by right|lia].
    + apply IH. lia.
Qed.

Lemma parseCSVLine_trimmed line x : x ∈ parseCSVLine line → Js.trim x = x.
Proof.
  intros Hx. apply (parseCSVLine_loop_trimmed _ _ _ _ _ _ (Nat.le_refl _)) in Hx.
  destruct Hx as [Hx|Hx]; [by apply elem_of_nil in Hx|done].
Qed.

(** The cells assigned while a data line is read. *)
Lemma assign_cells_spec header line cells : ∀ row,
  (∀ index key, (index, key) ∈ cells → parseCSVLine header !! index = Some key) →
  (∀ key value, row !! key = Some value → cell_of header line key value) →
  ∀ key value,
    fold_left (assign_cell (parseCSVLine line)) cells row !! key = Some value →
    cell_of header line key value.
Proof.
  induction cells as [|[index h] cells IH]; intros row Hcells Hrow; [done|].
  cbn [fold_left]. apply IH.
  - intros i k Hi. apply Hcells. by right.
  - intros key value. unfold assign_cell, set_prop.
    destruct (parseCSVLine line !! index) as [v|] eqn:Hv; [|apply Hrow].
    destruct (Js.truthy v) eqn:Ht; [|apply Hrow].
    destruct (decide (h = "__proto__")); [apply Hrow|].
    rewrite lookup_insert. case_decide; [|apply Hrow].
    intros [= <-]. subst key. repeat split.
    + by destruct v.
    + eapply parseCSVLine_trimmed, list_elem_of_lookup_2, Hv.
    + done.
    + exists index. split; [apply Hcells; by left|done].
Qed.

(** X3. Every row returned by [parseCSV] for a text of 7-bit characters
    comes from a data line of the text and has at least one cell; each of its
    cells is a non-empty, trimmed field of that line, stored under the header
    of the same column. *)
Theorem parseCSV_rows (csvContent : string) (row : CSVRow) :
  is_ascii_text csvContent = true →
  row ∈ parseCSV csvContent →
  ∃ header lines line,
    Js.split Js.LF (Js.trim csvContent) = header :: lines
    ∧ line ∈ lines
    ∧ row ≠ ∅
    ∧ ∀ key value, row !! key = Some value → cell_of header line key value.
Proof.
  intros _. unfold parseCSV.
  destruct (Js.split Js.LF (Js.trim csvContent)) as [|header lines];
    [by intros ?%elem_of_nil|].
  intros [Hkeys Hrow]%list_elem_of_filter.
  apply list_elem_of_fmap in Hrow as (line & -> & Hline).
  exists header, lines, line. split; [done|]. split; [done|]. split.
  - intros Hempty. rewrite Hempty in Hkeys. by vm_compute in Hkeys.
  - unfold parse_row. apply assign_cells_spec; [|by intros ? ? ?%lookup_empty_Some].
    intros index key Hi. apply elem_of_lookup_imap in Hi as (i & k & [= -> ->] & Hk).
    done.
Qed.

Lemma parseCSV_rows_witness :
  is_ascii_text scenario_csv = true
  ∧ scenario_row ∈ parseCSV scenario_csv
  ∧ ∃ header lines line,
      Js.split Js.LF (Js.trim scenario_csv) = header :: lines
      ∧ line ∈ lines
      ∧ scenario_row ≠ ∅
      ∧ ∀ key value, scenario_row !! key = Some value → cell_of header line key value.
Proof.
  assert (H : scenario_row ∈ parseCSV scenario_csv).
  { rewrite scenario_parsed. left. }
  split; [reflexivity|].
  split; [exact H|exact (parseCSV_rows scenario_csv scenario_row eq_refl H)].
Defined.

(** ** Breakdowns *)

Lemma bump_lookup key m k c :
  m !! k = entry c →
  bump key m !! k = entry (c + (if decide (k = key) then 1 else 0)).
Proof.
  intros Hk. unfold bump. rewrite lookup_insert.
  destruct (decide (key = k)) as [->|Hne].
  - rewrite decide_True by done. rewrite Hk. unfold entry.
    destruct (Nat.eqb_spec c 0) as [->|Hc]; [done|].
    destruct (Nat.eqb_spec (c + 1) 0); [lia|].
    by destruct (Nat.eqb_spec c 0).
  - rewrite decide_False by done. by rewrite Nat.add_0_r.
Qed.

Lemma count_by_cons field key tc tcs :
  count_by field key (tc :: tcs)
  = (if decide (field tc = key) then 1 else 0) + count_by field key tcs.
Proof. unfold count_by. rewrite filter_cons. by destruct (decide (field tc = key)). Qed.

Lemma count_by_app field key l1 l2 :
  count_by field key (l1 ++ l2) = count_by field key l1 + count_by field key l2.
Proof. unfold count_by. by rewrite filter_app, length_app. Qed.

Lemma count_cases_lookup key tcs : ∀ acc c1 c2,
  acc.1 !! key = entry c1 → acc.2 !! key = entry c2 →
  (fold_left count_case tcs acc).1 !! key = entry (c1 + count_by TestCaseType key tcs)
  ∧ (fold_left count_case tcs acc).2 !! key = entry (c2 + count_by Subtype key tcs).
Proof.
  induction tcs as [|tc tcs IH]; intros acc c1 c2 H1 H2.
  - unfold count_by. simpl. by rewrite !Nat.add_0_r.
  - cbn [fold_left]. rewrite !count_by_cons, !Nat.add_assoc.
    apply IH; cbn [count_case fst snd].
    + rewrite (bump_lookup _ _ _ c1) by done.
      f_equal. f_equal. by repeat case_decide.
    + rewrite (bump_lookup _ _ _ c2) by done.
      f_equal. f_equal. by repeat case_decide.
Qed.

(** The breakdowns count the test cases of each type and subtype. *)
Lemma calculateStatistics_lookup tcs rows key :
  TestCaseTypeBreakdown (calculateStatistics tcs rows) !! key
  = entry (count_by TestCaseType key tcs)
  ∧ SubtypeBreakdown (calculateStatistics tcs rows) !! key
    = entry (count_by Subtype key tcs).
Proof.
  unfold calculateStatistics.
  pose proof (count_cases_lookup key tcs (∅, ∅) 0 0 (lookup_empty _) (lookup_empty _))
    as [H1 H2].
  by destruct (fold_left count_case tcs (∅, ∅)).
Qed.

Section Counts.
Variable batchNumber : string.

Lemma row_block_types i row c key :
  count_by TestCaseType key (row_block batchNumber i row c)
  = if decide (key = "FUNCTIONAL") then 2
    else if decide (key = "EDGE") then 1
    else if decide (key = "REGRESSION") then (if (i + 1) mod 3 =? 0 then 1 else 0)
    else 0.
Proof.
  unfold row_block.
  destruct (isRequired row), ((i + 1) mod 3 =? 0);
    cbn [app]; rewrite !count_by_cons; cbn [TestCaseType functional_positive
      functional_negative edge_required edge_optional regression_positive];
    unfold count_by; rewrite filter_nil; cbn [length];
    repeat case_decide; simplify_eq; done.
Qed.

Lemma row_block_subtypes i row c key :
  count_by Subtype key (row_block batchNumber i row c)
  = if decide (key = "POSITIVE")
    then 1 + (if isRequired row then 0 else 1) + (if (i + 1) mod 3 =? 0 then 1 else 0)
    else if decide (key = "NEGATIVE") then 1 + (if isRequired row then 1 else 0)
    else 0.
Proof.
  unfold row_block.
  destruct (isRequired row), ((i + 1) mod 3 =? 0);
    cbn [app]; rewrite !count_by_cons; cbn [Subtype functional_positive
      functional_negative edge_required edge_optional regression_positive];
    unfold count_by; rewrite filter_nil; cbn [length];
    repeat case_decide; simplify_eq; done.
Qed.

Lemma div3_S i : S i / 3 = i / 3 + (if (i + 1) mod 3 =? 0 then 1 else 0).
Proof.
  replace (i + 1) with (S i) by lia.
  destruct (Nat.eqb_spec (S i mod 3) 0) as [H|H];
    pose proof (Nat.div_mod_eq (S i) 3); pose proof (Nat.div_mod_eq i 3);
    pose proof (Nat.mod_upper_bound i 3); pose proof (Nat.mod_upper_bound (S i) 3);
    lia.
Qed.

Lemma required_rows_cons row rows :
  required_rows (row :: rows) = (if isRequired row then 1 else 0) + required_rows rows.
Proof.
  unfold required_rows. rewrite filter_cons.
  destruct (isRequired row); by case_decide.
Qed.

Lemma required_rows_le rows : required_rows rows ≤ length rows.
Proof. apply length_filter. Qed.

Lemma blocks_types rows key : ∀ k,
  count_by TestCaseType key (blocks batchNumber k rows)
  + (if decide (key = "REGRESSION") then k / 3 else 0)
  = if decide (key = "FUNCTIONAL") then 2 * length rows
    else if decide (key = "EDGE") then length rows
    else if decide (key = "REGRESSION") then (k + length rows) / 3
    else 0.
Proof.
  induction rows as [|row rows IH]; intros k; cbn [blocks length].
  - rewrite (Nat.add_0_r k). unfold count_by. rewrite filter_nil. cbn [length].
    repeat case_decide; simplify_eq; lia.
  - rewrite count_by_app, row_block_types. specialize (IH (S k)).
    replace (k + S (length rows)) with (S k + length rows) by lia.
    pose proof (div3_S k).
    repeat case_decide; simplify_eq; lia.
Qed.

Lemma blocks_subtypes rows key : ∀ k,
  count_by Subtype key (blocks batchNumber k rows)
  + (if decide (key = "POSITIVE") then k / 3 else 0)
  = if decide (key = "POSITIVE")
    then length rows + (length rows - required_rows rows) + (k + length rows) / 3
    else if decide (key = "NEGATIVE") then length rows + required_rows rows
    else 0.
Proof.
  induction rows as [|row rows IH]; intros k; cbn [blocks length].
  - rewrite (Nat.add_0_r k). unfold count_by, required_rows. rewrite !filter_nil.
    cbn [length]. repeat case_decide; simplify_eq; lia.
  - rewrite count_by_app, row_block_subtypes, required_rows_cons. specialize (IH (S k)).
    replace (k + S (length rows)) with (S k + length rows) by lia.
    pose proof (div3_S k). pose proof (required_rows_le rows).
    destruct (isRequired row); repeat case_decide; simplify_eq; lia.
Qed.
End Counts.

(** X4. The breakdowns persisted with a job's results: for [n] parsed rows,
    [r] of them required, the types are FUNCTIONAL [2n], EDGE [n] and
    REGRESSION [n / 3]; the subtypes are POSITIVE [n + (n - r) + n / 3] and
    NEGATIVE [n + r]; a breakdown has no entry for a count of zero, and no
    other key. *)
Theorem generated_breakdowns (rows : list CSVRow) (batchNumber key : string) :
  let summary :=
    calculateStatistics (generateTestCasesFromCSV rows batchNumber) rows in
  TestCaseTypeBreakdown summary !! key = entry (expected_types (length rows) key)
  ∧ SubtypeBreakdown summary !! key
    = entry (expected_subtypes (length rows) (required_rows rows) key).
Proof.
  cbn zeta. rewrite generate_blocks.
  destruct (calculateStatistics_lookup (blocks batchNumber 0 rows) rows key) as [-> ->].
  pose proof (blocks_types batchNumber rows key 0) as Ht.
  pose proof (blocks_subtypes batchNumber rows key 0) as Hs.
  unfold expected_types, expected_subtypes.
  change (0 / 3) with 0 in *. cbn [Nat.add] in *.
  split; f_equal; repeat case_decide; simplify_eq; lia.
Qed.

(** ** Unique attributes *)

Lemma size_list_to_set_le (l : list string) :
  size (list_to_set (C := gset string) l) ≤ length l.
Proof.
  induction l as [|x l IH]; [by rewrite list_to_set_nil, size_empty|].
  cbn [list_to_set length].
  rewrite size_union_alt, size_singleton.
  assert (Hle : size (list_to_set (C := gset string) l ∖ {[x]})
                 ≤ size (list_to_set (C := gset string) l))
    by (by apply subseteq_size, subseteq_difference_l).
  lia.
Qed.

(** X5. [UniqueAttributes] never exceeds [MappingRows], the number of rows. *)
Theorem unique_attributes_le_rows (tcs : list TestCase) (rows : list CSVRow) :
  let summary := calculateStatistics tcs rows in
  UniqueAttributes summary ≤ MappingRows summary
  ∧ MappingRows summary = length rows.
Proof.
  cbn zeta. unfold calculateStatistics.
  destruct (fold_left count_case tcs (∅, ∅)). cbn [UniqueAttributes MappingRows].
  split; [|done]. unfold unique_attributes.
  etrans; [apply size_list_to_set_le|].
  etrans; [apply length_filter|].
  induction rows as [|row rows IH]; [done|]. cbn [omap list_omap length].
  destruct (row !! "FHIR_Attribute"); simpl; lia.
Qed.

(** ** The remaining store reads and the download route *)

Section Reads.
Variable env : Env.

Lemma readCSVContent_run jobId w :
  readCSVContent env jobId w
  = (Ret (match read_error env (readCount w) with
          | Some _ => None
          | None => inputFiles (store w) !! jobId
          end), tick_read w).
Proof.
  unfold readCSVContent, storage_read, get_store, try_catch, bind, ret.
  by destruct (read_error env (readCount w)).
Qed.

Lemma readCSVOutput_run jobId w :
  readCSVOutput env jobId w
  = (Ret (match read_error env (readCount w) with
          | Some _ => None
          | None => outputFiles (store w) !! jobId
          end), tick_read w).
Proof.
  unfold readCSVOutput, storage_read, get_store, try_catch, bind, ret.
  by destruct (read_error env (readCount w)).
Qed.

(** The five writes of the store, run. *)
Lemma store_writes_run (jobId : string) (w : World) :
  (∀ csv, ∃ w',
     writeCSVContent env jobId csv w = (Ret (writes_ok env w), w')
     ∧ store w' = if writes_ok env w
                  then set_inputFiles (<[jobId := csv]> (inputFiles (store w))) (store w)
                  else store w)
  ∧ (∀ p, ∃ w',
       writeMetadata env jobId p w = (Ret (writes_ok env w), w')
       ∧ store w' = if writes_ok env w
                    then set_metadataFiles
                           (<[jobId := mkMetadata p (clock env (clockCount w))]>
                              (metadataFiles (store w))) (store w)
                    else store w)
  ∧ (∀ r, ∃ w',
       writeResults env jobId r w = (Ret (writes_ok env w), w')
       ∧ store w' = if writes_ok env w
                    then set_resultsFiles (<[jobId := r]> (resultsFiles (store w))) (store w)
                    else store w)
  ∧ (∀ csv, ∃ w',
       writeCSVOutput env jobId csv w = (Ret (writes_ok env w), w')
       ∧ store w' = if writes_ok env w
                    then set_outputFiles (<[jobId := csv]> (outputFiles (store w))) (store w)
                    else store w)
  ∧ (∀ st err, ∃ w',
       writeJobStatus env jobId st err w = (Ret (writes_ok env w), w')
       ∧ if writes_ok env w
         then ∃ s, store w' = set_statusFiles (<[jobId := s]> (statusFiles (store w)))
                                (store w)
                   ∧ status s = st ∧ error s = stored_error err
         else store w' = store w).
Proof.
  destruct w as [s q rd wr p c u]. unfold writes_ok. cbn [writeCount].
  repeat split.
  - intros csv. unfold_ops; simpl.
    destruct (write_error env wr); simpl; [by eexists|].
    destruct (write_error env (S wr)); simpl; by eexists.
  - intros x. unfold_ops; simpl.
    destruct (write_error env wr); simpl; [by eexists|].
    destruct (write_error env (S wr)); simpl; by eexists.
  - intros r. unfold_ops; simpl.
    destruct (write_error env wr); simpl; [by eexists|].
    destruct (write_error env (S wr)); simpl; by eexists.
  - intros csv. unfold_ops; simpl.
    destruct (write_error env wr); simpl; [by eexists|].
    destruct (write_error env (S wr)); simpl; by eexists.
  - intros st err. unfold_ops; simpl.
    destruct (write_error env wr); simpl; [by eexists|].
    destruct (read_error env rd); simpl.
    + destruct (write_error env (S wr)); simpl; [by eexists|].
      eexists. split; [done|]. by eexists.
    + destruct (statusFiles s !! jobId) as [e|]; simpl;
        [destruct (Js.truthy (created_at e)); simpl|];
        (destruct (write_error env (S wr)); simpl; [by eexists|]);
        eexists; (split; [done|]); by eexists.
Qed.


(** X7. What was written is read back: after a write to the store whose
    write accesses succeeded, the matching read, when its own access
    succeeds, returns the value written (for a status, a record with the
    status and the error written). *)
Theorem store_round_trips (jobId : string) (w : World) :
  (∀ n, read_error env n = None) →
  writes_ok env w = true →
  (∀ csv,
     (readCSVContent env jobId (writeCSVContent env jobId csv w).2).1 = Ret (Some csv))
  ∧ (∀ r, (readResults env jobId (writeResults env jobId r w).2).1 = Ret (Some r))
  ∧ (∀ csv,
       (readCSVOutput env jobId (writeCSVOutput env jobId csv w).2).1 = Ret (Some csv))
  ∧ (∀ st err, ∃ s,
       (readJobStatus env jobId (writeJobStatus env jobId st err w).2).1 = Ret (Some s)
       ∧ status s = st ∧ error s = stored_error err).
Proof.
  intros Hrd Hok.
  destruct (store_writes_run jobId w) as (Hin & _ & Hres & Hout & Hst).
  rewrite Hok in *. repeat split.
  - intros csv. destruct (Hin csv) as (w' & -> & Hs). cbn [snd].
    rewrite readCSVContent_run, Hrd, Hs. simpl. by rewrite lookup_insert_eq.
  - intros r. destruct (Hres r) as (w' & -> & Hs). cbn [snd].
    rewrite readResults_run, Hrd, Hs. simpl. by rewrite lookup_insert_eq.
  - intros csv. destruct (Hout csv) as (w' & -> & Hs). cbn [snd].
    rewrite readCSVOutput_run, Hrd, Hs. simpl. by rewrite lookup_insert_eq.
  - intros st err. destruct (Hst st err) as (w' & -> & s & Hs & Hstat & Herr). cbn [snd].
    exists s. rewrite readJobStatus_run, Hrd, Hs. simpl. by rewrite lookup_insert_eq.
Qed.

Lemma header_value_ok_app a b :
  header_value_ok (a +:+ b) = header_value_ok a && header_value_ok b.
Proof.
  induction a as [|c a IH]; [done|].
  rewrite append_cons. cbn [header_value_ok]. by rewrite IH, andb_assoc.
Qed.

Lemma id_chars_header_ok jobId : all_id_chars jobId = true → header_value_ok jobId = true.
Proof.
  induction jobId as [|c r IH]; [done|]. cbn [all_id_chars header_value_ok].
  intros [Hc Hr]%andb_true_iff. rewrite (IH Hr), andb_true_r.
  unfold is_id_char in Hc. unfold is_header_char.
  apply andb_true_iff in Hc as [[[H1 H2]%andb_true_iff _]%andb_true_iff _].
  apply Nat.leb_le in H1, H2. cbv zeta.
  apply orb_true_iff. right. apply andb_true_iff. split.
  - apply Nat.leb_le. lia.
  - apply negb_true_iff, Nat.eqb_neq. lia.
Qed.

(** The header of a download for a plain job id is accepted. *)
Lemma plain_disposition_ok jobId :
  plain_id jobId = true →
  header_value_ok ("attachment; filename=test-cases-" +:+ jobId +:+ ".csv") = true.
Proof.
  unfold plain_id. intros [[[H _]%andb_true_iff _]%andb_true_iff _]%andb_true_iff.
  rewrite !header_value_ok_app, (id_chars_header_ok _ H). reflexivity.
Qed.

(** X8. For a plain job id (one that names its own directory, as every id
    drawn by [uuidv4] does), the three polling routes never answer with
    their catch-all 500 and never write: they return normally, leave the
    store and the queue as they are, and answer from what the store holds, or
    as for a job that does not exist. *)
Theorem get_routes_read_only (jobId : string) (w : World) :
  plain_id jobId = true →
  (∃ r, poll_status env jobId w = (Ret r, after_reads 1 w)
        ∧ (r = JobNotFound jobId
           ∨ ∃ s, statusFiles (store w) !! jobId = Some s ∧ r = StatusReport s))
  ∧ (∃ r n, results env jobId w = (Ret r, after_reads n w)
        ∧ (r = JobNotFound jobId
           ∨ ∃ s, statusFiles (store w) !! jobId = Some s
                  ∧ (status s ≠ completed ∧ r = JobNotCompleted (status s) jobId
                     ∨ status s = completed
                       ∧ (r = ResultsUnreadable jobId
                          ∨ ∃ x, resultsFiles (store w) !! jobId = Some x
                                 ∧ r = JobResults (TestCases x) (StatisticalSummary_ x)
                                        (stored_error (response_github_url x))
                                        ("/api/download/" +:+ jobId) (generated_at x)))))
  ∧ (∃ r, download env jobId w = (Ret r, after_reads 1 w)
        ∧ (r = CsvNotFound jobId
           ∨ ∃ c, outputFiles (store w) !! jobId = Some c ∧ c ≠ EmptyString
                  ∧ r = CsvFile ("attachment; filename=test-cases-" +:+ jobId +:+ ".csv")
                          c)).
Proof.
  intros Hplain. destruct w as [s q rd wr p c u]. repeat split.
  - unfold poll_status, try_catch, bind. rewrite readJobStatus_run. simpl.
    destruct (read_error env rd); [by eexists; split; [|left]|].
    destruct (statusFiles s !! jobId) as [x|]; eexists; (split; [done|]); eauto.
  - unfold results, try_catch, bind. rewrite readJobStatus_run. simpl.
    destruct (read_error env rd); [by exists (JobNotFound jobId), 1; split; [|left]|].
    destruct (statusFiles s !! jobId) as [x|];
      [|by exists (JobNotFound jobId), 1; split; [|left]].
    destruct (decide (status x = completed)) as [Hc|Hc].
    + rewrite bool_decide_eq_true_2 by done. simpl. rewrite readResults_run. simpl.
      destruct (read_error env (S rd)); simpl.
      { exists (ResultsUnreadable jobId), 2. split; [done|]. right. exists x. eauto. }
      destruct (resultsFiles s !! jobId) as [y|]; simpl;
        eexists; exists 2; (split; [done|]); right; exists x; eauto 10.
    + rewrite bool_decide_eq_false_2 by done. simpl.
      eexists; exists 1. split; [done|]. right. eauto.
  - unfold download, try_catch, bind, setHeader. rewrite readCSVOutput_run. cbv zeta.
    rewrite (plain_disposition_ok _ Hplain). simpl.
    destruct (read_error env rd); [by eexists; split; [|left]|].
    destruct (outputFiles s !! jobId) as [[|a x]|]; simpl;
      eexists; (split; [done|]); eauto.
Qed.
End Reads.

Lemma store_round_trips_witness :
  (readCSVContent quiet_env "job-0"
     (writeCSVContent quiet_env "job-0" scenario_csv fresh_world).2).1
  = Ret (Some scenario_csv).
Proof.
  destruct (store_round_trips quiet_env "job-0" fresh_world) as [H _];
    [reflexivity|reflexivity|].
  apply H.
Defined.

Lemma get_routes_read_only_witness :
  (∃ c, (download quiet_env "job-0" finished_world).1
        = Ret (CsvFile "attachment; filename=test-cases-job-0.csv" c))
  ∧ (results quiet_env "job-1" finished_world).1 = Ret (JobNotFound "job-1").
Proof.
  split.
  - destruct (get_routes_read_only quiet_env "job-0" finished_world eq_refl)
      as (_ & _ & r & Hrun & [Hr|(c & _ & _ & Hr)]).
    + subst r. vm_compute in Hrun. discriminate Hrun.
    + exists c. by rewrite Hrun, Hr.
  - destruct (get_routes_read_only quiet_env "job-1" finished_world eq_refl)
      as (_ & (r & n & Hrun & [Hr|(s & Hs & _)]) & _).
    + by rewrite Hrun, Hr.
    + vm_compute in Hs. discriminate Hs.
Defined.

(** ** Submissions and background tasks *)

Section Jobs.
Variable env : Env.

Lemma triple_any {A} (c : M A) :
  triple (λ _, True) c (λ _ _, True) (λ _ _, True).
Proof. intros w _. by destruct (c w) as [[a|e] w']. Qed.

(** *** What a submission runs *)

Lemma submit_accepted body w v csv :
  schema_check body = Some v → resolved_csv env v = Some csv →
  submit env body w
  = match generateTestCases env (request_of v csv) w with
    | (Ret jobId, w') =>
        (Ret (JobStarted jobId "Test case generation started"
                ("/api/status/" +:+ jobId) ("/api/results/" +:+ jobId)), w')
    | (Throw e, w') =>
        (Ret (StartFailed (message_of e) (clock env (clockCount w'))), tick_clock w')
    end.
Proof.
  intros Hv Hcsv.
  unfold submit, schema_parse, await_fetch, try_catch, bind, ret, throw, now.
  rewrite Hv. unfold resolved_csv in Hcsv. fold (request_of v).
  destruct (v_github_url v) as [[|c u]|] eqn:Hurl; cbn [Js.truthy].
  - destruct (Js.truthy (Js.or_default (v_csv_mapping v) EmptyString)) eqn:Ht;
      [|done]. simplify_eq. cbn [negb].
    unfold request_of. rewrite Hurl.
    destruct (generateTestCases env _ w) as [[j|e] w']; reflexivity.
  - destruct (fetchCSVFromGitHub env (String c u)) as [e|r]; [done|].
    destruct (success r); [|done].
    destruct (Js.truthy (Js.or_default (content r) EmptyString)) eqn:Ht; [|done].
    cbn [andb] in Hcsv. simplify_eq. cbn [negb orb andb]. rewrite Ht. cbn [negb].
    unfold request_of. rewrite Hurl.
    destruct (generateTestCases env _ w) as [[j|e] w']; reflexivity.
  - destruct (Js.truthy (Js.or_default (v_csv_mapping v) EmptyString)) eqn:Ht;
      [|done]. simplify_eq. cbn [negb].
    unfold request_of. rewrite Hurl.
    destruct (generateTestCases env _ w) as [[j|e] w']; reflexivity.
Qed.

Lemma submit_refused body w :
  (∀ v, schema_check body = Some v → resolved_csv env v = None) →
  store (submit env body w).2 = store w ∧ immediates (submit env body w).2 = immediates w.
Proof.
  intros Hno.
  unfold submit, schema_parse, await_fetch, try_catch, bind, ret, throw, now.
  destruct (schema_check body) as [v|]; [|done].
  specialize (Hno v eq_refl). unfold resolved_csv in Hno.
  destruct (v_github_url v) as [[|c u]|]; cbn [Js.truthy].
  - by destruct (Js.truthy (Js.or_default (v_csv_mapping v) EmptyString)).
  - destruct (fetchCSVFromGitHub env (String c u)) as [e|r]; [done|].
    destruct (success r); [|done].
    by destruct (Js.truthy (Js.or_default (content r) EmptyString)).
  - by destruct (Js.truthy (Js.or_default (v_csv_mapping v) EmptyString)).
Qed.

(** A submission leaves the world as it is, but for the clock, or runs the
    orchestrator in the world it found. *)
Lemma submit_world body w :
  (store (submit env body w).2 = store w
   ∧ immediates (submit env body w).2 = immediates w)
  ∨ ∃ request, (submit env body w).2 = (generateTestCases env request w).2.
Proof.
  destruct (schema_check body) as [v|] eqn:Hv;
    [|left; apply submit_refused; intros v; by rewrite Hv].
  destruct (resolved_csv env v) as [csv|] eqn:Hcsv;
    [|left; apply submit_refused; intros v'; rewrite Hv; by intros [= <-]].
  right. exists (request_of v csv). rewrite (submit_accepted _ _ _ _ Hv Hcsv).
  destruct (generateTestCases_run env (request_of v csv) w) as (ok & w1 & w' & _ & -> & _).
  done.
Qed.

(** *** Jobs do not touch each other *)

Section Isolation.
Variables (jobId other : string) (view : option StatusData * option string
  * option Metadata * option TestCaseResponse * option string).
Hypothesis distinct : other ≠ jobId.

Lemma unchanged_insert s s' :
  unchanged other view s →
  statusFiles s' !! other = statusFiles s !! other →
  inputFiles s' !! other = inputFiles s !! other →
  metadataFiles s' !! other = metadataFiles s !! other →
  resultsFiles s' !! other = resultsFiles s !! other →
  outputFiles s' !! other = outputFiles s !! other →
  unchanged other view s'.
Proof. unfold unchanged, job_view. by intros <- -> -> -> -> ->. Qed.

Lemma unchanged_status st err : keeps (unchanged other view) (writeJobStatus env jobId st err).
Proof.
  apply keeps_writeJobStatus. intros s x Hs.
  eapply unchanged_insert; [exact Hs|simpl..]; by rewrite ?lookup_insert_ne.
Qed.

Lemma unchanged_background request : keeps (unchanged other view) (backgroundTask env jobId request).
Proof.
  apply keeps_try.
  - unfold background_steps.
    apply keeps_bind; [apply unchanged_status|intros _].
    apply keeps_bind; [apply keeps_pure_step|intros csvRows].
    apply keeps_bind; [apply keeps_pure_step|intros tcs].
    apply keeps_bind; [apply keeps_pure_step|intros summary].
    apply keeps_bind; [apply keeps_now|intros t].
    apply keeps_bind.
    { apply keeps_writeResults. intros s Hs.
      eapply unchanged_insert; [exact Hs|simpl..]; by rewrite ?lookup_insert_ne. }
    intros _.
    apply keeps_bind; [apply keeps_pure_step|intros csvOutput].
    apply keeps_bind.
    { apply keeps_writeCSVOutput. intros s Hs.
      eapply unchanged_insert; [exact Hs|simpl..]; by rewrite ?lookup_insert_ne. }
    intros _.
    apply keeps_bind; [apply unchanged_status|intros _; apply keeps_ret].
  - intros e. apply keeps_bind; [apply unchanged_status|intros _; apply keeps_ret].
Qed.

Lemma unchanged_submission request w :
  unchanged other view (store w) → uuid env (uuidCount w) = jobId →
  unchanged other view (store (generateTestCases env request w).2).
Proof.
  intros Hw Hid. unfold generateTestCases, uuidv4. unfold bind at 1. rewrite Hid.
  match goal with
  | |- unchanged _ _ (store (try_catch ?c ?h ?w0).2) =>
      assert (Hk : keeps (unchanged other view) (try_catch c h)); [|specialize (Hk w0 Hw)]
  end.
  { apply keeps_try.
    - apply keeps_bind; [apply unchanged_status|intros _].
      apply keeps_bind.
      { apply keeps_writeCSVContent. intros s Hs.
        eapply unchanged_insert; [exact Hs|simpl..]; by rewrite ?lookup_insert_ne. }
      intros _.
      apply keeps_bind.
      { apply keeps_writeMetadata. intros s x Hs.
        eapply unchanged_insert; [exact Hs|simpl..]; by rewrite ?lookup_insert_ne. }
      intros _.
      apply keeps_bind; [apply keeps_setImmediate|intros _; apply keeps_ret].
    - intros e. apply keeps_bind; [apply unchanged_status|intros _; apply keeps_throw]. }
  by destruct (try_catch _ _ _) as [[a|e] w'].
Qed.
End Isolation.

(** X9. Jobs with plain ids (ids that name their own directory, as every
    id drawn by [uuidv4] does) are isolated.  One turn of the server, a
    request served or a background task run, writes at most under the job id
    it draws and under the id of the task it runs: when these are plain, the
    artifacts of every other plain job id are left as they were, whatever
    errors occur. *)
Theorem step_touches_own_job (w w' : World) (other : string) :
  step env w w' →
  plain_id other = true →
  plain_id (uuid env (uuidCount w)) = true →
  (∀ t, head (immediates w) = Some t →
        plain_id (task_jobId t) = true ∧ task_jobId t ≠ other) →
  other ≠ uuid env (uuidCount w) →
  job_view (store w') other = job_view (store w) other.
Proof.
  intros [r w0 out w1 H|w0 out w1 H] _ _ Hhead Hdrawn.
  - destruct r as [body|jobId|jobId]; simpl in H.
    + destruct (submit_world body w0) as [[Hs _]|[request Hs]];
        rewrite H in Hs; simpl in Hs; [by rewrite Hs|].
      rewrite Hs. by apply (unchanged_submission (uuid env (uuidCount w0))).
    + pose proof (poll_status_keeps env (unchanged other (job_view (store w0) other))
                    jobId w0 eq_refl) as Hk.
      rewrite H in Hk. by destruct out.
    + pose proof (results_keeps env (unchanged other (job_view (store w0) other))
                    jobId w0 eq_refl) as Hk.
      rewrite H in Hk. by destruct out.
  - unfold run_immediate in H. destruct (immediates w0) as [|t q]; [by simplify_eq|].
    assert (Hne : other ≠ task_jobId t).
    { destruct (Hhead t eq_refl) as [_ Hne]. by intros ->. }
    pose proof (unchanged_background (task_jobId t) other (job_view (store w0) other)
                  Hne (task_request t) (set_immediates q w0) eq_refl) as Hk.
    rewrite H in Hk. by destruct out.
Qed.

(** *** The queue of background tasks *)

Lemma queue_writeResults jobId r w :
  immediates (writeResults env jobId r w).2 = immediates w.
Proof.
  destruct w as [s q rd wr p c u]. unfold_ops; simpl.
  destruct (write_error env wr); simpl; [done|].
  by destruct (write_error env (S wr)).
Qed.

Lemma queue_writeCSVOutput jobId csv w :
  immediates (writeCSVOutput env jobId csv w).2 = immediates w.
Proof.
  destruct w as [s q rd wr p c u]. unfold_ops; simpl.
  destruct (write_error env wr); simpl; [done|].
  by destruct (write_error env (S wr)).
Qed.

Lemma queue_writeJobStatus jobId st err w :
  immediates (writeJobStatus env jobId st err w).2 = immediates w.
Proof. by destruct (writeJobStatus_run env jobId st err w) as (ok & w' & -> & Hq & _). Qed.

Lemma queue_pure_step {A} (v : A) w : immediates (pure_step env v w).2 = immediates w.
Proof. unfold pure_step. by destruct (runtime_error env (stepCount w)). Qed.

Lemma triple_queue {A} (q : list Task) (c : M A) :
  (∀ w, immediates (c w).2 = immediates w) →
  triple (λ w, immediates w = q) c (λ _ w, immediates w = q) (λ _ w, immediates w = q).
Proof.
  intros Hc w Hw. specialize (Hc w). destruct (c w) as [[a|e] w']; simpl in *; congruence.
Qed.

Lemma queue_backgroundTask jobId request w :
  immediates (backgroundTask env jobId request w).2 = immediates w.
Proof.
  assert (H : triple (λ w', immediates w' = immediates w) (backgroundTask env jobId request)
                (λ _ w', immediates w' = immediates w)
                (λ _ w', immediates w' = immediates w)).
  { eapply triple_try.
    - unfold background_steps.
      eapply triple_bind; [apply triple_queue, queue_writeJobStatus|intros ?; cbv beta].
      eapply triple_bind; [apply triple_queue, queue_pure_step|intros ?; cbv beta].
      eapply triple_bind; [apply triple_queue, queue_pure_step|intros ?; cbv beta].
      eapply triple_bind; [apply triple_queue, queue_pure_step|intros ?; cbv beta].
      eapply triple_bind; [by apply triple_queue|intros ?; cbv beta].
      eapply triple_bind; [apply triple_queue, queue_writeResults|intros ?; cbv beta].
      eapply triple_bind; [apply triple_queue, queue_pure_step|intros ?; cbv beta].
      eapply triple_bind; [apply triple_queue, queue_writeCSVOutput|intros ?; cbv beta].
      eapply triple_bind; [apply triple_queue, queue_writeJobStatus|intros ?; cbv beta].
      by apply triple_ret.
    - intros e; cbv beta. eapply triple_bind; [apply triple_queue, queue_writeJobStatus|intros ?; cbv beta].
      by apply triple_ret. }
  specialize (H w eq_refl).
  by destruct (backgroundTask env jobId request w) as [[a|e] w'].
Qed.

(** X10. The queue of background tasks is first in, first out, and a task
    runs once: a turn of the event loop returns normally, takes the oldest
    task off the queue and runs it, and the task queues nothing. *)
Theorem run_immediate_pops (w : World) :
  ∃ w', run_immediate env w = (Ret tt, w')
    ∧ immediates w' = tail (immediates w)
    ∧ match immediates w with
      | [] => w' = w
      | t :: queue =>
          w' = (backgroundTask env (task_jobId t) (task_request t)
                  (set_immediates queue w)).2
      end.
Proof.
  unfold run_immediate. destruct (immediates w) as [|t queue] eqn:Hq.
  - exists w. by rewrite Hq.
  - destruct (backgroundTask_returns env (task_jobId t) (task_request t)
                (set_immediates queue w)) as [w' Hrun].
    exists w'. split; [done|].
    pose proof (queue_backgroundTask (task_jobId t) (task_request t)
                  (set_immediates queue w)) as Hk.
    rewrite Hrun in Hk |- *. done.
Qed.

(** X11. A submission that passes the schema and resolves to a CSV text
    always starts a job, whatever the storage does: the answer is 200 with
    the job id drawn and the two polling URLs built from it, and exactly one
    background task, for that id and that text, joins the queue. *)
Theorem accepted_submission_starts_job (body : option Body) (w : World)
    (v : Validated) (csv : string) :
  schema_check body = Some v → resolved_csv env v = Some csv →
  let jobId := uuid env (uuidCount w) in
  (submit env body w).1
  = Ret (JobStarted jobId "Test case generation started"
           ("/api/status/" +:+ jobId) ("/api/results/" +:+ jobId))
  ∧ immediates (submit env body w).2
    = immediates w ++ [mkTask jobId (request_of v csv)].
Proof.
  intros Hv Hcsv. cbn zeta. rewrite (submit_accepted _ _ _ _ Hv Hcsv).
  destruct (generateTestCases_run env (request_of v csv) w)
    as (ok & w1 & w' & _ & -> & _ & Hq).
  done.
Qed.
End Jobs.

Lemma step_touches_own_job_witness :
  (∃ s r c, job_view (store finished_world) "job-0"
            = (Some s, Some scenario_csv, Some (mkMetadata
                 (mkParams (Some "001") (Some "u1") (Some (Js.length scenario_csv))
                    None None None) (sample_clock 2)), Some r, Some c))
  ∧ job_view (store resubmitted_world) "job-0" = job_view (store finished_world) "job-0".
Proof.
  split; [vm_compute; do 3 eexists; reflexivity|].
  apply (step_touches_own_job quiet_env finished_world resubmitted_world "job-0").
  - apply (step_request _ (PostSubmit scenario_body) finished_world
             (submit quiet_env scenario_body finished_world).1 resubmitted_world).
    unfold resubmitted_world. simpl.
    by destruct (submit quiet_env scenario_body finished_world).
  - reflexivity.
  - vm_compute. reflexivity.
  - intros t H. vm_compute in H. discriminate H.
  - intros H. vm_compute in H. discriminate H.
Defined.

Lemma accepted_submission_starts_job_witness :
  (submit quiet_env scenario_body fresh_world).1
  = Ret (JobStarted "job-0" "Test case generation started"
           "/api/status/job-0" "/api/results/job-0").
Proof.
  destruct (accepted_submission_starts_job quiet_env scenario_body fresh_world
              (mkValidated (Some scenario_csv) "001" "u1" None None None) scenario_csv
              eq_refl eq_refl) as [H _].
  exact H.
Defined.

(** ** The life of a job *)

Section Lifecycle.
Variable env : Env.

(** *** A store that accepts every write *)

Lemma all_writes_ok w : (∀ n, write_error env n = None) → writes_ok env w = true.
Proof. intros Hwr. unfold writes_ok. by rewrite !Hwr. Qed.

Lemma writeJobStatus_written jobId st err w :
  (∀ n, write_error env n = None) →
  ∃ w' s, writeJobStatus env jobId st err w = (Ret true, w')
    ∧ store w' = set_statusFiles (<[jobId := s]> (statusFiles (store w))) (store w)
    ∧ status s = st ∧ error s = stored_error err.
Proof.
  intros Hwr. destruct (store_writes_run env jobId w) as (_ & _ & _ & _ & H).
  destruct (H st err) as (w' & Hrun & Hs). rewrite all_writes_ok in Hrun, Hs by done.
  destruct Hs as (s & Hs). by exists w', s.
Qed.

Lemma triple_writeJobStatus_written jobId st err E :
  (∀ n, write_error env n = None) →
  triple (λ _, True) (writeJobStatus env jobId st err)
    (λ _ w', ∃ s, statusFiles (store w') !! jobId = Some s
                  ∧ status s = st ∧ error s = stored_error err) E.
Proof.
  intros Hwr w _.
  destruct (writeJobStatus_written jobId st err w Hwr) as (w' & s & -> & Hs & Hst & Herr).
  exists s. rewrite Hs. simpl. by rewrite lookup_insert_eq.
Qed.

Lemma background_steps_completed jobId request :
  (∀ n, write_error env n = None) →
  triple (λ _, True) (background_steps env jobId request)
    (λ _ w', ∃ s, statusFiles (store w') !! jobId = Some s
                  ∧ status s = completed ∧ error s = None)
    (λ _ _, True).
Proof.
  intros Hwr. unfold background_steps.
  eapply triple_bind; [apply triple_any|intros ?; cbv beta].
  eapply triple_bind; [apply triple_any|intros ?; cbv beta].
  eapply triple_bind; [apply triple_any|intros ?; cbv beta].
  eapply triple_bind; [apply triple_any|intros ?; cbv beta].
  eapply triple_bind; [apply triple_any|intros ?; cbv beta].
  eapply triple_bind; [apply triple_any|intros ?; cbv beta].
  eapply triple_bind; [apply triple_any|intros ?; cbv beta].
  eapply triple_bind; [apply triple_any|intros ?; cbv beta].
  eapply triple_bind; [by apply triple_writeJobStatus_written|intros ?; cbv beta].
  by apply triple_ret.
Qed.

(** X12. When the store accepts every write, a background task always
    leaves its job in a terminal state: completed, without error, when its
    steps ran through, and failed, with the message of the exception, when a
    step was aborted.  Failed reads do not matter. *)
Theorem background_task_terminal (jobId : string) (request : TestCaseRequest)
    (w : World) :
  (∀ n, write_error env n = None) →
  ∃ s, statusFiles (store (backgroundTask env jobId request w).2) !! jobId = Some s
    ∧ match (background_steps env jobId request w).1 with
      | Ret _ => status s = completed ∧ error s = None
      | Throw e => status s = failed ∧ error s = stored_error (Some (message_of e))
      end.
Proof.
  intros Hwr. pose proof (background_steps_completed jobId request Hwr w I) as Hsteps.
  unfold backgroundTask, try_catch.
  destruct (background_steps env jobId request w) as [[[]|e] w1]; [done|].
  unfold background_failed, bind.
  destruct (writeJobStatus_written jobId failed (Some (message_of e)) w1 Hwr)
    as (w' & s & -> & Hs & Hst & Herr).
  exists s. simpl. rewrite Hs. simpl. by rewrite lookup_insert_eq.
Qed.

(** *** A submission in a store that accepts every write *)

Lemma generateTestCases_written request w :
  (∀ n, write_error env n = None) →
  let jobId := uuid env (uuidCount w) in
  ∃ w' s t,
    generateTestCases env request w = (Ret jobId, w')
    ∧ immediates w' = immediates w ++ [mkTask jobId request]
    ∧ status s = pending ∧ error s = None
    ∧ store w'
      = set_metadataFiles
          (<[jobId := mkMetadata (metadata_of request) t]> (metadataFiles (store w)))
          (set_inputFiles (<[jobId := csv_mapping request]> (inputFiles (store w)))
             (set_statusFiles (<[jobId := s]> (statusFiles (store w))) (store w))).
Proof.
  intros Hwr. cbn zeta. set (jobId := uuid env (uuidCount w)).
  destruct (writeJobStatus_written jobId pending None (tick_uuid w) Hwr)
    as (w1 & s & Hrun1 & Hs1 & Hst & Herr).
  destruct (store_writes_run env jobId w1) as (Hin & _).
  destruct (Hin (csv_mapping request)) as (w2 & Hrun2 & Hs2).
  destruct (store_writes_run env jobId w2) as (_ & Hmeta & _).
  destruct (Hmeta (metadata_of request)) as (w3 & Hrun3 & Hs3).
  rewrite all_writes_ok in Hrun2, Hs2, Hrun3, Hs3 by done.
  destruct (generateTestCases_run env request w) as (ok & w1' & w' & Hrun1' & Hgen & _ & Hq).
  exists w', s, (clock env (clockCount w2)). split; [done|]. split; [done|].
  split; [done|]. split; [done|].
  revert Hgen. unfold generateTestCases, uuidv4. unfold bind at 1. unfold try_catch.
  unfold bind at 1. fold jobId. rewrite Hrun1.
  unfold bind at 1. rewrite Hrun2.
  unfold bind at 1. fold (metadata_of request). rewrite Hrun3.
  unfold bind, setImmediate, ret. intros [= <-]. simpl.
  rewrite Hs3, Hs2, Hs1. done.
Qed.

(** X13. When the store accepts every write, an accepted submission of a
    CSV text of 7-bit characters, with no [batch_size] or one that is an
    integer of magnitude at most 2^53, has persisted, by the time it is
    answered, a pending status without error, the CSV text it resolved to as
    the job's input, and the metadata of the request, with the length of that
    text. *)
Theorem accepted_submission_persisted (body : option Body) (w : World)
    (v : Validated) (csv : string) :
  (∀ n, write_error env n = None) →
  schema_check body = Some v → resolved_csv env v = Some csv →
  is_ascii_text csv = true → safe_integer (v_batch_size v) = true →
  let jobId := uuid env (uuidCount w) in
  let s' := store (submit env body w).2 in
  (∃ s, statusFiles s' !! jobId = Some s ∧ status s = pending ∧ error s = None)
  ∧ inputFiles s' !! jobId = Some csv
  ∧ (∃ t, metadataFiles s' !! jobId
          = Some (mkMetadata
                    (mkParams (Some (v_batch_number v)) (Some (v_user_id v))
                       (Some (Js.length csv)) (v_github_url v) (v_session_id v)
                       (v_batch_size v)) t))
  ∧ resultsFiles s' !! jobId = resultsFiles (store w) !! jobId
  ∧ outputFiles s' !! jobId = outputFiles (store w) !! jobId.
Proof.
  intros Hwr Hv Hcsv _ _. cbn zeta. rewrite (submit_accepted _ _ _ _ _ Hv Hcsv).
  destruct (generateTestCases_written (request_of v csv) w Hwr)
    as (w' & s & t & -> & _ & Hst & Herr & Hstore).
  cbn [snd]. rewrite Hstore. simpl. rewrite !lookup_insert_eq. eauto 10.
Qed.

(** *** From submission to download *)

Lemma generateCSV_nonempty tcs : Js.truthy (generateCSV tcs) = true.
Proof. unfold generateCSV. by rewrite join_lines. Qed.

(** X14. The happy path, end to end.  With no storage error and no aborted
    step, for a CSV text of 7-bit characters and a plain job id drawn, once
    the task of an accepted submission has run, the status route reports
    completed, the results route returns the test cases generated from the
    resolved CSV text under the request's batch number, with their statistics
    and the download URL of the job, and the download route returns the CSV
    export of those test cases. *)
Theorem accepted_submission_completes (body : option Body) (w : World)
    (v : Validated) (csv : string) :
  (∀ n, read_error env n = None) → (∀ n, write_error env n = None) →
  (∀ n, runtime_error env n = None) →
  schema_check body = Some v → resolved_csv env v = Some csv →
  is_ascii_text csv = true →
  plain_id (uuid env (uuidCount w)) = true →
  immediates w = [] →
  let jobId := uuid env (uuidCount w) in
  let rows := parseCSV csv in
  let tcs := generateTestCasesFromCSV rows (v_batch_number v) in
  let w' := (run_immediate env (submit env body w).2).2 in
  (∃ s, (poll_status env jobId w').1 = Ret (StatusReport s) ∧ status s = completed)
  ∧ (∃ url t,
       (results env jobId w').1
       = Ret (JobResults tcs (calculateStatistics tcs rows) url
                ("/api/download/" +:+ jobId) t))
  ∧ (download env jobId w').1
    = Ret (CsvFile ("attachment; filename=test-cases-" +:+ jobId +:+ ".csv")
             (generateCSV tcs))
  ∧ immediates w' = [].
Proof.
  intros Hrd Hwr Hrt Hv Hcsv _ Hplain Hq. cbn zeta.
  rewrite (submit_accepted _ _ _ _ _ Hv Hcsv).
  destruct (generateTestCases_run env (request_of v csv) w)
    as (ok & w0 & w1 & _ & -> & _ & Hq1).
  rewrite Hq in Hq1. simpl in Hq1. cbn [snd].
  unfold run_immediate. rewrite Hq1. cbn [task_jobId task_request].
  pose proof (backgroundTask_no_fault env (uuid env (uuidCount w)) (request_of v csv)
                (set_immediates [] w1) Hrd Hwr Hrt) as Hbg.
  pose proof (queue_backgroundTask env (uuid env (uuidCount w)) (request_of v csv)
                (set_immediates [] w1)) as Hq2.
  cbn zeta in Hbg. cbn [csv_mapping batch_number request_of] in Hbg.
  destruct (backgroundTask env _ _ (set_immediates [] w1)) as [out w2].
  cbn [snd] in *. destruct Hbg as (s & r & Hs & Hst & Hr & Htcs & Hsum & Hout).
  repeat split.
  - exists s. unfold poll_status, try_catch, bind.
    by rewrite readJobStatus_run, Hrd, Hs.
  - exists (stored_error (response_github_url r)), (generated_at r).
    unfold results, try_catch, bind.
    rewrite readJobStatus_run, Hrd, Hs. cbn [ret].
    rewrite bool_decide_eq_true_2 by done. cbn [negb].
    rewrite readResults_run, Hrd. cbn [store tick_read]. rewrite Hr.
    by rewrite Htcs, Hsum.
  - unfold download, try_catch, bind, setHeader. cbv zeta.
    rewrite (plain_disposition_ok _ Hplain).
    rewrite readCSVOutput_run, Hrd, Hout. by rewrite generateCSV_nonempty.
  - done.
Qed.

(** *** Recorded errors *)

Lemma keeps_writeJobStatus_record (I : Store → Prop) jobId st err :
  (∀ s x, I s → status x = st → error x = stored_error err →
     I (set_statusFiles (<[jobId := x]> (statusFiles s)) s)) →
  keeps I (writeJobStatus env jobId st err).
Proof.
  intros HI w Hw.
  destruct (writeJobStatus_run env jobId st err w) as (ok & w' & -> & _ & H).
  destruct ok; [destruct H as (s & -> & Hst & Herr & _)|rewrite H]; auto.
Qed.

Lemma errors_only_failed_status jobId st err :
  err = None ∨ st = failed →
  keeps errors_only_failed (writeJobStatus env jobId st err).
Proof.
  intros Hcase. apply keeps_writeJobStatus_record.
  intros s x Hs Hst Herr j y m. simpl. rewrite lookup_insert.
  case_decide; [|apply Hs]. intros [= <-] Hm. rewrite Herr in Hm.
  destruct err as [e|]; [|done]. simpl in Hm.
  destruct e; [done|]. simpl in Hm. simplify_eq. destruct Hcase as [?|?]; [done|].
  split; [congruence|done].
Qed.

Lemma errors_only_failed_background jobId request :
  keeps errors_only_failed (backgroundTask env jobId request).
Proof.
  apply keeps_try.
  - unfold background_steps.
    apply keeps_bind; [apply errors_only_failed_status; by left|intros _].
    apply keeps_bind; [apply keeps_pure_step|intros csvRows].
    apply keeps_bind; [apply keeps_pure_step|intros tcs].
    apply keeps_bind; [apply keeps_pure_step|intros summary].
    apply keeps_bind; [apply keeps_now|intros t].
    apply keeps_bind; [by apply keeps_writeResults|intros _].
    apply keeps_bind; [apply keeps_pure_step|intros csvOutput].
    apply keeps_bind; [by apply keeps_writeCSVOutput|intros _].
    apply keeps_bind; [apply errors_only_failed_status; by left|intros _].
    apply keeps_ret.
  - intros e. apply keeps_bind; [apply errors_only_failed_status; by right|intros _].
    apply keeps_ret.
Qed.

Lemma errors_only_failed_submission request :
  keeps errors_only_failed (generateTestCases env request).
Proof.
  unfold generateTestCases.
  apply keeps_bind; [apply keeps_uuidv4|intros jobId].
  apply keeps_try.
  - apply keeps_bind; [apply errors_only_failed_status; by left|intros _].
    apply keeps_bind; [by apply keeps_writeCSVContent|intros _].
    apply keeps_bind; [by apply keeps_writeMetadata|intros _].
    apply keeps_bind; [apply keeps_setImmediate|intros _; apply keeps_ret].
  - intros e.
    apply keeps_bind; [apply errors_only_failed_status; by right|intros _].
    apply keeps_throw.
Qed.

Lemma errors_only_failed_step w w' :
  step env w w' → errors_only_failed (store w) → errors_only_failed (store w').
Proof.
  intros [r w0 out w1 H|w0 out w1 H] Hok.
  - assert (Hk : keeps errors_only_failed (handle env r)).
    { destruct r; [apply submit_keeps, errors_only_failed_submission
                  |apply poll_status_keeps|apply results_keeps]. }
    specialize (Hk w0 Hok). rewrite H in Hk. by destruct out.
  - unfold run_immediate in H. destruct (immediates w0) as [|t q]; [by simplify_eq|].
    pose proof (errors_only_failed_background (task_jobId t) (task_request t)
                  (set_immediates q w0) Hok) as Hk.
    rewrite H in Hk. by destruct out.
Qed.

(** X15. In every state the server reaches from the empty store, whatever
    the requests and the errors, a status record carries an error only when
    its status is failed, and the error is not the empty text. *)
Theorem reachable_errors_only_failed (w : World) :
  reachable env w → errors_only_failed (store w).
Proof.
  induction 1 as [rd wr st ck uu|w w' _ IH Hstep].
  - intros jobId x m Hx. simpl in Hx. by rewrite lookup_empty in Hx.
  - by eapply errors_only_failed_step.
Qed.
End Lifecycle.

Lemma background_task_terminal_witness :
  ∃ s, statusFiles
         (store (backgroundTask (step_fault_env 0) "job-0" scenario_request fresh_world).2)
       !! "job-0" = Some s
    ∧ status s = failed ∧ error s = Some "Invalid string length".
Proof.
  destruct (background_task_terminal (step_fault_env 0) "job-0" scenario_request
              fresh_world (λ _, eq_refl)) as (s & Hs & H).
  exists s. split; [exact Hs|]. vm_compute in H. exact H.
Defined.

Lemma accepted_submission_persisted_witness :
  inputFiles (store submitted_world) !! "job-0" = Some scenario_csv.
Proof.
  destruct (accepted_submission_persisted quiet_env scenario_body fresh_world
              (mkValidated (Some scenario_csv) "001" "u1" None None None) scenario_csv
              (λ _, eq_refl) eq_refl eq_refl eq_refl eq_refl) as (_ & H & _).
  exact H.
Defined.

Lemma accepted_submission_completes_witness :
  (download quiet_env "job-0" finished_world).1
  = Ret (CsvFile "attachment; filename=test-cases-job-0.csv"
           (generateCSV (generateTestCasesFromCSV (parseCSV scenario_csv) "001"))).
Proof.
  destruct (accepted_submission_completes quiet_env scenario_body fresh_world
              (mkValidated (Some scenario_csv) "001" "u1" None None None) scenario_csv
              (λ _, eq_refl) (λ _, eq_refl) (λ _, eq_refl) eq_refl eq_refl eq_refl
              eq_refl eq_refl)
    as (_ & _ & H & _).
  exact H.
Defined.

Lemma aborted_world_reachable : reachable (step_fault_env 0) aborted_world.
Proof.
  eapply reachable_step; [eapply reachable_step; [apply (reachable_init _ 0 0 0 0 0)|]|].
  - apply (step_request _ (PostSubmit scenario_body) fresh_world
             (submit (step_fault_env 0) scenario_body fresh_world).1
             (submit (step_fault_env 0) scenario_body fresh_world).2).
    simpl. by destruct (submit (step_fault_env 0) scenario_body fresh_world).
  - apply (step_background _ (submit (step_fault_env 0) scenario_body fresh_world).2
             (run_immediate (step_fault_env 0)
                (submit (step_fault_env 0) scenario_body fresh_world).2).1
             aborted_world).
    unfold aborted_world.
    by destruct (run_immediate (step_fault_env 0)
                   (submit (step_fault_env 0) scenario_body fresh_world).2).
Defined.

Lemma reachable_errors_only_failed_witness :
  ∃ x, statusFiles (store aborted_world) !! "job-0" = Some x
    ∧ error x = Some "Invalid string length"
    ∧ status x = failed.
Proof.
  assert (∃ x, statusFiles (store aborted_world) !! "job-0" = Some x
               ∧ error x = Some "Invalid string length") as (x & Hx & He)
    by (vm_compute; eexists; split; reflexivity).
  exists x. split; [exact Hx|]. split; [exact He|].
  apply (reachable_errors_only_failed (step_fault_env 0) aborted_world
           aborted_world_reachable "job-0" x "Invalid string length" Hx He).
Defined.

(** ** The pytest route ([POST /api/generate_pytest]) *)

Lemma pytest_ident_app a b : pytest_ident (a +:+ b) = pytest_ident a +:+ pytest_ident b.
Proof.
  unfold pytest_ident. induction a as [|c a IH]; [done|].
  rewrite append_cons. cbn [Js.toLowerCase Js.replaceAll].
  destruct (decide (Js.lower_char c = "-"%char)); rewrite IH; reflexivity.
Qed.

Lemma is_digit_cases c :
  is_digit c = true → c ∈ ["0"; "1"; "2"; "3"; "4"; "5"; "6"; "7"; "8"; "9"]%char.
Proof.
  unfold is_digit. intros [H1 H2]%andb_true_iff.
  apply Nat.leb_le in H1, H2.
  rewrite <- (ascii_nat_embedding c).
  assert (Hn : nat_of_ascii c ∈ seq 48 10) by (apply elem_of_seq; lia).
  revert Hn. generalize (nat_of_ascii c). intros n Hn.
  simpl in Hn. set_unfold. destruct_or!; subst; simpl; tauto.
Qed.

Lemma pytest_ident_digits s : all_digits s = true → pytest_ident s = s.
Proof.
  unfold pytest_ident. induction s as [|c s IH]; [done|].
  cbn [all_digits Js.toLowerCase Js.replaceAll]. intros [Hc Hs]%andb_true_iff.
  rewrite (IH Hs). apply is_digit_cases in Hc.
  set_unfold. destruct_or!; subst; try done.
Qed.

Lemma pytest_ident_make_id b n s :
  pytest_ident (make_id b n s)
  = "b_" +:+ pytest_ident b +:+ "_tc_" +:+ Js.padStart 3 "0" (Js.String_ n) +:+ "_"
      +:+ pytest_ident s.
Proof.
  unfold make_id. rewrite !pytest_ident_app.
  by rewrite (pytest_ident_digits _ (pad_digits n)).
Qed.

Lemma pytest_name_inj b n m s t :
  "test_" +:+ pytest_ident (make_id b n s) = "test_" +:+ pytest_ident (make_id b m t) →
  n = m.
Proof.
  rewrite !pytest_ident_make_id. intros H. simpl in H. injection H as H.
  apply (inj (String.app (pytest_ident b))) in H. simpl in H. injection H as H.
  apply pad_inj. eapply digits_underscore; [apply pad_digits..|exact H].
Qed.

(** X16. The test methods the pytest route writes for the test cases of one
    job have pairwise distinct names, so that no method of the generated class
    replaces another (for a batch number of 7-bit characters). *)
Theorem pytest_names_distinct (rows : list CSVRow) (batchNumber : string) :
  is_ascii_text batchNumber = true →
  NoDup (pytest_name <$> generateTestCasesFromCSV rows batchNumber).
Proof.
  intros _. rewrite generate_blocks.
  apply NoDup_alt. intros i j x Hi Hj.
  apply list_lookup_fmap_Some in Hi as (tci & -> & Hi).
  apply list_lookup_fmap_Some in Hj as (tcj & Heq & Hj).
  unfold pytest_name in Heq.
  rewrite (blocks_ids _ _ _ _ _ Hi), (blocks_ids _ _ _ _ _ Hj) in Heq.
  apply pytest_name_inj in Heq. lia.
Qed.

Lemma pytest_names_distinct_witness :
  is_ascii_text "001" = true
  ∧ NoDup (pytest_name <$> generateTestCasesFromCSV [scenario_row] "001").
Proof. split; [reflexivity|apply (pytest_names_distinct [scenario_row] "001" eq_refl)]. Defined.
